(** * ray-optics: the 2D lens layout and its interactive figure

    A shallow embedding of [rayoptics/gui/layout.py] and
    [rayoptics/mpl/interactivelayout.py].

    - Numbers that the code computes with (coordinates, transforms, pixel
      positions) are IEEE binary64 values, as numpy's float64: [float].
    - numpy arrays keep their dynamic shape ([Np.ndarray]); a shape mismatch
      is a [ValueError], as in numpy.
    - Python exceptions are values of [exn]; a computation that may raise
      returns a [result]. Mutations made before an exception is raised stay
      in the state.
    - Python dicts that are only looked up are [gmap string _]; dicts that
      the code iterates over, where the insertion order is observable, are
      association lists. *)

From Stdlib Require Import Floats QArith.
From stdpp Require Import gmap strings list functions.

Local Open Scope string_scope.

(** ** Python exceptions *)

Inductive exn : Type :=
| KeyError
| IndexError
| ValueError
| TypeError
| AttributeError
| OtherError (tag : nat).

Inductive result (A : Type) : Type :=
| Ok (a : A)
| Raise (e : exn).
Arguments Ok {A} a.
Arguments Raise {A} e.

(** Sequencing stops at the first exception: [x ← r; k]. *)
#[global] Instance result_ret : MRet result := fun _ a => Ok a.
#[global] Instance result_bind : MBind result := fun _ _ k r =>
  match r with
  | Ok a => k a
  | Raise e => Raise e
  end.

(** [l[i]] on a Python list. *)
Definition py_index {A} (l : list A) (i : nat) : result A :=
  match l !! i with
  | Some a => Ok a
  | None => Raise IndexError
  end.

(** [d[k]] on a Python dict. *)
Definition py_getitem {A} (d : gmap string A) (k : string) : result A :=
  match d !! k with
  | Some a => Ok a
  | None => Raise KeyError
  end.

(** An insertion-ordered dict, for the dicts the code iterates over. *)
Definition odict (A : Type) : Type := list (string * A).

Fixpoint od_lookup {A} (d : odict A) (k : string) : option A :=
  match d with
  | [] => None
  | (k', a) :: d' => if String.eqb k' k then Some a else od_lookup d' k
  end.

Definition od_getitem {A} (d : odict A) (k : string) : result A :=
  match od_lookup d k with
  | Some a => Ok a
  | None => Raise KeyError
  end.

Definition od_values {A} (d : odict A) : list A := map snd d.

(** ** The part of numpy the layout uses *)

Module Np.

Local Open Scope float_scope.

(** 0-d, 1-d and 2-d arrays of float64; a 2-d array is its list of rows. *)
Inductive ndarray : Type :=
| A0 (x : float)
| A1 (v : list float)
| A2 (m : list (list float)).

(** Sum of products, accumulated from the left. *)
Fixpoint dot_from (acc : float) (a b : list float) : float :=
  match a, b with
  | x :: a', y :: b' => dot_from (acc + x * y) a' b'
  | _, _ => acc
  end.

(** The inner product of [numpy.matmul]: the sum starts at [0.0], so a
    sum of products that are all [-0.0] is [+0.0]. *)
Definition dot (a b : list float) : float := dot_from 0 a b.

Definition ncols (m : list (list float)) : nat :=
  match m with
  | [] => 0%nat
  | r :: _ => length r
  end.

Definition column (j : nat) (m : list (list float)) : list float :=
  map (fun r => nth j r 0) m.

Definition transpose (m : list (list float)) : list (list float) :=
  map (fun j => column j m) (seq 0 (ncols m)).

(** [a.T]: a no-op below two dimensions. *)
Definition T (a : ndarray) : ndarray :=
  match a with
  | A2 m => A2 (transpose m)
  | _ => a
  end.

Definition rows_have (n : nat) (m : list (list float)) : bool :=
  forallb (fun r => Nat.eqb (length r) n) m.

(** [np.matmul(a, b)]: the inner dimensions must agree. *)
Definition matmul (a b : ndarray) : result ndarray :=
  match a, b with
  | A2 x, A2 y =>
      if rows_have (length y) x
      then Ok (A2 (map (fun r => map (dot r) (transpose y)) x))
      else Raise ValueError
  | A2 x, A1 v =>
      if rows_have (length v) x
      then Ok (A1 (map (fun r => dot r v) x))
      else Raise ValueError
  | A1 v, A2 y =>
      if Nat.eqb (length v) (length y)
      then Ok (A1 (map (dot v) (transpose y)))
      else Raise ValueError
  | A1 u, A1 v =>
      if Nat.eqb (length u) (length v)
      then Ok (A0 (dot u v))
      else Raise ValueError
  | _, _ => Raise ValueError
  end.

(** One row of [a op= t]: [t] has the row's length, or length 1. *)
Definition broadcast_row (op : float → float → float)
    (r t : list float) : result (list float) :=
  if Nat.eqb (length t) (length r) then Ok (zip_with op r t)
  else match t with
       | [x] => Ok (map (fun y => op y x) r)
       | _ => Raise ValueError
       end.

Fixpoint broadcast_rows (op : float → float → float)
    (m : list (list float)) (t : list float) : result (list (list float)) :=
  match m with
  | [] => Ok []
  | r :: m' =>
      r' ← broadcast_row op r t;
      m'' ← broadcast_rows op m' t;
      Ok (r' :: m'')
  end.

(** [a op= t] for a 1-d [t]: the result must have the shape of [a], so
    [t] is broadcast along the last axis of [a] and nothing else. *)
Definition inplace (op : float → float → float)
    (a : ndarray) (t : list float) : result ndarray :=
  match a with
  | A0 _ => Raise ValueError
  | A1 v => v' ← broadcast_row op v t; Ok (A1 v')
  | A2 m => m' ← broadcast_rows op m t; Ok (A2 m')
  end.

Definition iadd := inplace PrimFloat.add.
Definition isub := inplace PrimFloat.sub.

(** [np.minimum] and [np.maximum]: the first operand if it is smaller
    (larger) or NaN, the second otherwise, so a NaN operand wins and of
    two equal values the second is kept. *)
Definition minimum (a b : float) : float :=
  if (a <? b) || is_nan a then a else b.

Definition maximum (a b : float) : float :=
  if (b <? a) || is_nan a then a else b.

Definition reduce (f : float → float → float) (l : list float)
    : result float :=
  match l with
  | [] => Raise ValueError
  | x :: l' => Ok (fold_left f l' x)
  end.

(** [np.min(a, axis=0)] and [np.max(a, axis=0)]: an empty array has no
    minimum. *)
Definition reduce_axis0 (f : float → float → float) (a : ndarray)
    : result ndarray :=
  match a with
  | A0 _ => Raise ValueError
  | A1 v => x ← reduce f v; Ok (A0 x)
  | A2 m =>
      match m with
      | [] => Raise ValueError
      | r :: m' =>
          if rows_have (length r) m'
          then Ok (A1 (fold_left (zip_with f) m' r))
          else Raise ValueError
      end
  end.

Definition min0 := reduce_axis0 minimum.
Definition max0 := reduce_axis0 maximum.

(** [x, y = a]: unpacking an array into two names. *)
Definition unpack2 (a : ndarray) : result (float * float) :=
  match a with
  | A0 _ => Raise TypeError
  | A1 [x; y] => Ok (x, y)
  | A1 _ => Raise ValueError
  | A2 _ => Raise ValueError
  end.

(** [np.array(l)] of a list of coordinate rows; [np.array([])] is 1-d. *)
Definition array (l : list (list float)) : ndarray :=
  match l with
  | [] => A1 []
  | _ => A2 l
  end.

(** An [n] by [c] array: [n] rows, each of [c] numbers. *)
Definition has_shape (n c : nat) (m : list (list float)) : Prop :=
  length m = n ∧ Forall (fun r => length r = c) m.

End Np.

(** ** State and exceptions together

    A method that mutates its objects and may raise: the state it leaves
    and what it returned or raised. *)

Definition M (S A : Type) : Type := S → S * result A.

#[global] Instance M_ret {S} : MRet (M S) := fun _ a s => (s, Ok a).
#[global] Instance M_bind {S} : MBind (M S) := fun _ _ k m s =>
  match m s with
  | (s', Ok a) => k a s'
  | (s', Raise e) => (s', Raise e)
  end.

Definition get {S} : M S S := fun s => (s, Ok s).
Definition modify {S} (f : S → S) : M S unit := fun s => (f s, Ok tt).
Definition lift {S A} (r : result A) : M S A := fun s => (s, r).

(** [try: body finally: cleanup] *)
Definition try_finally {S A} (body : M S A) (cleanup : M S unit) : M S A :=
  fun s =>
    let '(s1, r) := body s in
    match cleanup s1 with
    | (s2, Ok _) => (s2, r)
    | (s2, Raise e) => (s2, Raise e)
    end.

(** [try: body except KeyError: pass] *)
Definition except_KeyError_pass {S} (body : M S unit) : M S unit :=
  fun s =>
    match body s with
    | (s1, Raise KeyError) => (s1, Ok tt)
    | out => out
    end.

(** ** rayoptics/gui/layout.py: geometry *)

Module Layout.

Import Np.
Local Open Scope float_scope.

(** A 3-vector and a 3x3 matrix of the optical model; the fields are
    named after the Python indices. *)
Record vec3 : Type := Vec3 { c0 : float; c1 : float; c2 : float }.
Record mat3 : Type := Mat3 { r0 : vec3; r1 : vec3; r2 : vec3 }.

(** A surface's transform, [(rot, t)]. *)
Definition transform : Type := mat3 * vec3.

Definition vadd (a b : vec3) : vec3 :=
  Vec3 (c0 a + c0 b) (c1 a + c1 b) (c2 a + c2 b).
Definition vsub (a b : vec3) : vec3 :=
  Vec3 (c0 a - c0 b) (c1 a - c1 b) (c2 a - c2 b).
Definition vscale (k : float) (a : vec3) : vec3 :=
  Vec3 (k * c0 a) (k * c1 a) (k * c2 a).
(** [a.dot(b)]: the sum starts at [0.0]. *)
Definition vdot (a b : vec3) : float :=
  0 + c0 a * c0 b + c1 a * c1 b + c2 a * c2 b.
(** [rot.dot(v)] *)
Definition mdot (rot : mat3) (v : vec3) : vec3 :=
  Vec3 (vdot (r0 rot) v) (vdot (r1 rot) v) (vdot (r2 rot) v).

(** [rot[1:, 1:]] *)
Definition sub11 (rot : mat3) : ndarray :=
  A2 [[c1 (r1 rot); c2 (r1 rot)]; [c1 (r2 rot); c2 (r2 rot)]].

(** One ray/surface intersection: point, direction, path length and
    surface normal. *)
Record RaySeg : Type := mkRaySeg {
  rs_p : vec3;
  rs_d : vec3;
  rs_dst : float;
  rs_nrml : vec3
}.

(** A traced ray; [ray] is its list of segments. *)
Record RayPkg : Type := mkRayPkg { ray : list RaySeg }.

Definition py_setitem {A} (l : list A) (i : nat) (a : A) : result (list A) :=
  if bool_decide (i < length l)%nat then Ok (<[i:=a]> l)
  else Raise IndexError.

(** The body of the loop of [shift_start_of_ray_bundle], for the ray [r]
    at index [ri]. *)
Definition shift_ray (ri : nat) (r : RayPkg) (start_bundle : list RaySeg)
    (rot : mat3) (t : vec3) : result (list RaySeg) :=
  seg1 ← py_index (ray r) 1;
  let b4_pt := vsub (mdot rot (rs_p seg1)) t in
  seg0 ← py_index (ray r) 0;
  let b4_dir := mdot rot (rs_d seg0) in
  dst ← (if Nat.eqb ri 0
         then Ok ((- c2 b4_pt) / c2 b4_dir)
         else
           chief ← py_index start_bundle 0;
           let pt0 := rs_p chief in
           let dir0 := rs_d chief in
           Ok ((- vdot (vsub b4_pt pt0) dir0) / vdot b4_dir dir0));
  let pt := vadd b4_pt (vscale dst b4_dir) in
  let ray0 := mkRaySeg pt b4_dir dst (rs_nrml seg0) in
  py_setitem start_bundle ri ray0.

Fixpoint shift_loop (ri : nat) (ray_bundle : list RayPkg)
    (start_bundle : list RaySeg) (rot : mat3) (t : vec3)
    : result (list RaySeg) :=
  match ray_bundle with
  | [] => Ok start_bundle
  | r :: rest =>
      start_bundle' ← shift_ray ri r start_bundle rot t;
      shift_loop (S ri) rest start_bundle' rot t
  end.

(** [shift_start_of_ray_bundle]: the list it leaves in [start_bundle]. *)
Definition shift_start_of_ray_bundle (start_bundle : list RaySeg)
    (ray_bundle : list RayPkg) (rot : mat3) (t : vec3)
    : result (list RaySeg) :=
  shift_loop 0 ray_bundle start_bundle rot t.

(** [transform_ray_seg]: the list it leaves in [poly]. *)
Definition transform_ray_seg (poly : list (list float)) (r : RaySeg)
    (tfrm : transform) : list (list float) :=
  let '(rot, trns) := tfrm in
  let p := vadd (mdot rot (rs_p r)) trns in
  (poly ++ [[c2 p; c1 p]])%list.

Definition bbox_from_poly (poly : ndarray) : result ndarray :=
  mn ← min0 poly;
  '(minx, miny) ← unpack2 mn;
  mx ← max0 poly;
  '(maxx, maxy) ← unpack2 mx;
  Ok (A2 [[minx; miny]; [maxx; maxy]]).

Definition coord_flip : ndarray := A2 [[0; 1]; [1; 0]].

Definition transform_poly (tfrm : transform) (poly : ndarray)
    : result (ndarray * ndarray) :=
  poly ← matmul coord_flip (T poly);
  poly ← matmul (sub11 (fst tfrm)) poly;
  let poly := T poly in
  let t := [c1 (snd tfrm); c2 (snd tfrm)] in
  poly ← iadd poly t;
  poly ← matmul poly coord_flip;
  bbox ← bbox_from_poly poly;
  Ok (poly, bbox).

Definition inv_transform_poly (tfrm : transform) (poly : ndarray)
    : result ndarray :=
  poly ← matmul coord_flip (T poly);
  let t := [c1 (snd tfrm); c2 (snd tfrm)] in
  poly ← isub poly t;
  poly ← matmul (sub11 (fst tfrm)) poly;
  let poly := T poly in
  matmul poly coord_flip.

(** *** What the view (the interactive figure) creates

    [InteractiveLayout.create_polygon] and [create_polyline], which the
    shapes call through their [view] argument. The matplotlib objects they
    build are kept as the arguments they were built from. *)

Inductive artifact : Type :=
| Polygon (xy : ndarray) (fc : option (list float)) (zorder : option Q)
| Line2D (xdata ydata : ndarray).

Definition rgb2mpl (rgb : list float) : option (list float) :=
  match rgb with
  | [r; g; b] => Some [r / 255; g / 255; b / 255]
  | [r; g; b; a] => Some [r / 255; g / 255; b / 255; a / 255]
  | _ => None
  end.

Definition create_polygon (poly : ndarray) (rgb_color : list float)
    (zorder : option Q) : result artifact :=
  Ok (Polygon poly (rgb2mpl rgb_color) zorder).

(** [a[i]] on an array. *)
Definition getitem (a : ndarray) (i : nat) : result ndarray :=
  match a with
  | A0 _ => Raise IndexError
  | A1 v => x ← py_index v i; Ok (A0 x)
  | A2 m => r ← py_index m i; Ok (A1 r)
  end.

Definition create_polyline (poly : ndarray) : result artifact :=
  x ← getitem (T poly) 0;
  y ← getitem (T poly) 1;
  Ok (Line2D x y).

(** An instance attribute that [__init__] may not have set. *)
Inductive attr (A : Type) : Type :=
| NoAttr
| Attr (a : A).
Arguments NoAttr {A}.
Arguments Attr {A} a.

Definition getattr {A} (x : attr A) : result A :=
  match x with
  | Attr a => Ok a
  | NoAttr => Raise AttributeError
  end.

(** The mapping a shape returns from [update_shape]:
    handle key to (artifact, bounding box). *)
Abbreviation handle_map := (gmap string (artifact * ndarray)).

(** *** RayBundle *)

(** The sequential model, as far as the layout reads it: the global
    transforms (a list the model shares with its readers), and the
    interfaces and gaps that [setup_shift_of_ray_bundle] indexes. *)
Record SeqModel : Type := mkSeqModel {
  gbl_tfrms : list transform;
  ifcs : list nat;
  gap_media : list nat
}.

Record RayBundle : Type := mkRayBundle {
  fld_label : string;
  wvl : float;
  start_offset : float;
  rb_handles : handle_map;
  rayset : attr (odict RayPkg);
  ray_table_callback : bool
}.

Definition set_wvl (w : float) (self : RayBundle) : RayBundle :=
  mkRayBundle (fld_label self) w (start_offset self) (rb_handles self)
              (rayset self) (ray_table_callback self).
Definition set_rayset (rs : odict RayPkg) (self : RayBundle) : RayBundle :=
  mkRayBundle (fld_label self) (wvl self) (start_offset self)
              (rb_handles self) (Attr rs) (ray_table_callback self).
Definition set_rb_handle (k : string) (v : artifact * ndarray)
    (self : RayBundle) : RayBundle :=
  mkRayBundle (fld_label self) (wvl self) (start_offset self)
              (<[k:=v]> (rb_handles self)) (rayset self)
              (ray_table_callback self).
Definition set_gbl_tfrms (l : list transform) (sm : SeqModel) : SeqModel :=
  mkSeqModel l (ifcs sm) (gap_media sm).

Section RayBundle.

(** [transform.reverse_transform(s0, Gap(thi, medium), s1)], from the
    optical package: the transform of a first surface placed [thi] in
    front of [s1]. *)
Variable reverse_transform : nat → float * nat → nat → transform.

Definition setup_shift_of_ray_bundle (seq_model : SeqModel)
    (start_offset : float) : result transform :=
  s1 ← py_index (ifcs seq_model) 1;
  s0 ← py_index (ifcs seq_model) 0;
  medium ← py_index (gap_media seq_model) 0;
  let g0 := (start_offset, medium) in
  Ok (reverse_transform s0 g0 s1).

(** The loop [for i, r in enumerate(ray[1:], 1)] of [render_ray] and
    [render_shape]. *)
Fixpoint render_segs (poly : list (list float)) (i : nat)
    (segs : list RaySeg) (tfrms : list transform)
    : result (list (list float)) :=
  match segs with
  | [] => Ok poly
  | r :: rest =>
      tfrm ← py_index tfrms i;
      render_segs (transform_ray_seg poly r tfrm) (S i) rest tfrms
  end.

Definition render_ray (ray : list RaySeg) (start_seg : RaySeg)
    (tfrms : list transform) : result ndarray :=
  tfrm0 ← py_index tfrms 0;
  let poly := transform_ray_seg [] start_seg tfrm0 in
  poly ← render_segs poly 1 (drop 1 ray) tfrms;
  Ok (array poly).

Definition render_shape (rayset : odict RayPkg)
    (start_bundle : list RaySeg) (tfrms : list transform)
    : result (list (list float) * ndarray) :=
  seg3 ← py_index start_bundle 3;
  tfrm0 ← py_index tfrms 0;
  let poly1 := transform_ray_seg [] seg3 tfrm0 in
  upper ← od_getitem rayset "+Y";
  poly1 ← render_segs poly1 1 (drop 1 (ray upper)) tfrms;
  seg4 ← py_index start_bundle 4;
  tfrm0 ← py_index tfrms 0;
  let poly2 := transform_ray_seg [] seg4 tfrm0 in
  lower ← od_getitem rayset "-Y";
  poly2 ← render_segs poly2 1 (drop 1 (ray lower)) tfrms;
  let poly1 := (poly1 ++ reverse poly2)%list in
  bbox ← bbox_from_poly (array poly1);
  Ok (poly1, bbox).

(** [tfrms[0] = tfrm] on the model's list of transforms. *)
Definition set_tfrm0 (tfrm : transform)
    : M (RayBundle * SeqModel) unit :=
  fun '(self, seq_model) =>
    match py_setitem (gbl_tfrms seq_model) 0 tfrm with
    | Ok l => ((self, set_gbl_tfrms l seq_model), Ok tt)
    | Raise e => ((self, seq_model), Raise e)
    end.

Definition on_self (f : RayBundle → RayBundle)
    : M (RayBundle * SeqModel) unit :=
  modify (fun '(self, seq_model) => (f self, seq_model)).

(** The body of the [try] of [update_shape]. *)
Definition render_all (rayset : odict RayPkg)
    (start_bundle : list RaySeg) (tfrms : list transform)
    : result (list (list float) * ndarray * ndarray * ndarray * ndarray) :=
  '(poly, bbox) ← render_shape rayset start_bundle tfrms;
  r00 ← od_getitem rayset "00";
  seg0 ← py_index start_bundle 0;
  cr ← render_ray (ray r00) seg0 tfrms;
  rpy ← od_getitem rayset "+Y";
  seg3 ← py_index start_bundle 3;
  upr ← render_ray (ray rpy) seg3 tfrms;
  rmy ← od_getitem rayset "-Y";
  seg4 ← py_index start_bundle 4;
  lwr ← render_ray (ray rmy) seg4 tfrms;
  Ok (poly, bbox, cr, upr, lwr).

(** The end of [update_shape], after the [try]: the four handles. *)
Definition set_handles (rndr_clr : list float) (poly : list (list float))
    (bbox cr upr lwr : ndarray) : M (RayBundle * SeqModel) handle_map :=
  p ← lift (create_polygon (array poly) rndr_clr None);
  on_self (set_rb_handle "shape" (p, bbox));;
  cr_poly ← lift (create_polyline cr);
  cr_bbox ← lift (bbox_from_poly cr);
  on_self (set_rb_handle "00" (cr_poly, cr_bbox));;
  upr_poly ← lift (create_polyline upr);
  upr_bbox ← lift (bbox_from_poly upr);
  on_self (set_rb_handle "+Y" (upr_poly, upr_bbox));;
  lwr_poly ← lift (create_polyline lwr);
  lwr_bbox ← lift (bbox_from_poly lwr);
  on_self (set_rb_handle "-Y" (lwr_poly, lwr_bbox));;
  '(self, _) ← get;
  mret (rb_handles self).

(** The start-offset shift of [update_shape]: the override of
    [tfrms[0]] and the shifted start of the bundle. *)
Definition shift_if_far (self : RayBundle) (seq_model : SeqModel)
    (tfrtm0 : transform) (rayset : odict RayPkg)
    (start_bundle : list RaySeg)
    : M (RayBundle * SeqModel) (list RaySeg) :=
  if start_offset self <? abs (c2 (snd tfrtm0))
  then
    '(rot, t) ← lift (setup_shift_of_ray_bundle seq_model
                                                (start_offset self));
    set_tfrm0 (rot, t);;
    lift (shift_start_of_ray_bundle start_bundle (od_values rayset)
                                    rot t)
  else mret start_bundle.

(** The [try ... finally] of [update_shape], which puts the remembered
    transform back, and the handles that follow it. *)
Definition render_and_publish (rndr_clr : list float)
    (tfrtm0 : transform) (rayset : odict RayPkg)
    (start_bundle : list RaySeg) : M (RayBundle * SeqModel) handle_map :=
  '(poly, bbox, cr, upr, lwr) ←
    try_finally
      ('(_, seq_model) ← get;
       lift (render_all rayset start_bundle (gbl_tfrms seq_model)))
      (set_tfrm0 tfrtm0);
  set_handles rndr_clr poly bbox cr upr lwr.

(** [RayBundle.update_shape]. [central_wvl] and [traced] are what the
    optical model and the ray trace return at the top of the method:
    the central wavelength and [boundary_ray_dict] of the traced
    boundary rays. *)
Definition rb_update_shape (central_wvl : float) (traced : odict RayPkg)
    : M (RayBundle * SeqModel) handle_map :=
  let rndr_clr := [254; 197; 254; 64] in
  on_self (set_wvl central_wvl);;
  on_self (set_rayset traced);;
  '(self, seq_model) ← get;
  tfrtm0 ← lift (py_index (gbl_tfrms seq_model) 0);
  start_bundle ← lift (mapM (fun r => py_index (ray r) 0)
                            (od_values traced));
  start_bundle ← shift_if_far self seq_model tfrtm0 traced start_bundle;
  render_and_publish rndr_clr tfrtm0 traced start_bundle.

End RayBundle.

(** *** OpticalElement *)

(** What a shape's actions do to the world around them, in order: the
    calls into the optical model's action objects, the GUI refresh, the
    ray table, the renderer. *)
Inductive action_arg : Type :=
| NoArg
| PtArg (lcl_pt : ndarray)
| DeltaArg (delta : float).

Inductive effect : Type :=
| Invoke (key : string) (kind : string) (h : nat) (arg : action_arg)
| RefreshGui
| Print (x y : float)
| RayTableRoot (root : list RaySeg)
| Highlight (artist : nat)
| Unhighlight (artist : nat)
| CanvasDraw.

(** A handler of an action object of the optical model: [h_id] names it,
    [h_raises] is the exception it ends with, if any. *)
Record handler : Type := mkHandler { h_id : nat; h_raises : option exn }.

(** An action object: its [actions] dict, event kind to handler. *)
Record ActionObj : Type := mkActionObj { ao_actions : gmap string handler }.

(** The dict of action objects of one handle, keyed ['x'], ['y'], ['pt']. *)
Abbreviation handle_action_table := (odict ActionObj).

Inductive element_class : Type := IsElement | IsMirror | IsOther.

(** An element of the optical model, as the layout reads it. [e_handles]
    is what [render_handles] leaves in [e.handles]: per handle, the local
    polygon, its transform and the polygon or polyline tag. *)
Record Element : Type := mkElement {
  e_class : element_class;
  e_handles : odict (list (list float) * transform * string);
  e_render_color : list float;
  e_label : option string;
  e_handle_actions : gmap string handle_action_table
}.

Definition set_e_label (l : string) (e : Element) : Element :=
  mkElement (e_class e) (e_handles e) (e_render_color e) (Some l)
            (e_handle_actions e).

Inductive shape_class : Type :=
| OpticalElementClass
| LensElementClass
| MirrorElementClass.

(** [((event.x, event.y), (event.xdata, event.ydata))] of a press: the
    pixel position, and the data position, which is [None] when the
    pointer is outside the axes. *)
Definition press_point : Type :=
  (float * float) * (option float * option float).

Record OpticalElement : Type := mkOpticalElement {
  oe_class : shape_class;
  oe_e : Element;
  oe_handles : handle_map;
  handle_actions : gmap string handle_action_table;
  select_pt : attr (option press_point);
  move_direction : attr (option string)
}.

Definition set_oe_e (e : Element) (self : OpticalElement) : OpticalElement :=
  mkOpticalElement (oe_class self) e (oe_handles self) (handle_actions self)
                   (select_pt self) (move_direction self).
Definition set_oe_handles (h : handle_map) (self : OpticalElement)
    : OpticalElement :=
  mkOpticalElement (oe_class self) (oe_e self) h (handle_actions self)
                   (select_pt self) (move_direction self).
Definition set_select_pt (v : option press_point) (self : OpticalElement)
    : OpticalElement :=
  mkOpticalElement (oe_class self) (oe_e self) (oe_handles self)
                   (handle_actions self) (Attr v) (move_direction self).
Definition set_move_direction (v : option string) (self : OpticalElement)
    : OpticalElement :=
  mkOpticalElement (oe_class self) (oe_e self) (oe_handles self)
                   (handle_actions self) (select_pt self) (Attr v).

(** [OpticalElement.__init__], and the two attributes that only
    [LensElement.__init__] adds. *)
Definition create_optical_element (e : Element) : OpticalElement :=
  match e_class e with
  | IsElement =>
      mkOpticalElement LensElementClass e ∅ (e_handle_actions e)
                       (Attr None) (Attr None)
  | IsMirror =>
      mkOpticalElement MirrorElementClass e ∅ (e_handle_actions e)
                       NoAttr NoAttr
  | IsOther =>
      mkOpticalElement OpticalElementClass e ∅ (e_handle_actions e)
                       NoAttr NoAttr
  end.

(** The loop of [OpticalElement.update_shape] over [e.handles.items()]:
    the mapping it has built when it stops, and how it stopped. *)
Fixpoint update_handles (render_color : list float)
    (items : odict (list (list float) * transform * string))
    (handles : handle_map) : handle_map * result unit :=
  match items with
  | [] => (handles, Ok tt)
  | (key, (value0, value1, value2)) :: rest =>
      let poly := array value0 in
      match transform_poly value1 poly with
      | Raise e => (handles, Raise e)
      | Ok (poly_gbl, bbox) =>
          if String.eqb value2 "polygon" then
            match create_polygon poly_gbl render_color (Some (5 # 2)%Q) with
            | Raise e => (handles, Raise e)
            | Ok p => update_handles render_color rest
                                     (<[key:=(p, bbox)]> handles)
            end
          else if String.eqb value2 "polyline" then
            match create_polyline poly_gbl with
            | Raise e => (handles, Raise e)
            | Ok p => update_handles render_color rest
                                     (<[key:=(p, bbox)]> handles)
            end
          else (handles, Ok tt)
      end
  end.

Abbreviation handle_value := (list (list float) * transform * string)%type.

Definition known_tag (value : handle_value) : bool :=
  String.eqb (snd value) "polygon" || String.eqb (snd value) "polyline".

(** The handles that the loop reaches: those in front of the first one
    whose tag is neither polygon nor polyline. *)
Fixpoint reached (items : odict handle_value) : odict handle_value :=
  match items with
  | [] => []
  | (key, value) :: rest =>
      if known_tag value then (key, value) :: reached rest else []
  end.

(** The entry that the loop body stores for one handle. *)
Definition handle_entry (render_color : list float) (value : handle_value)
    : result (artifact * ndarray) :=
  let '(value0, value1, value2) := value in
  '(poly_gbl, bbox) ← transform_poly value1 (array value0);
  p ← (if String.eqb value2 "polygon"
       then create_polygon poly_gbl render_color (Some (5 # 2)%Q)
       else create_polyline poly_gbl);
  Ok (p, bbox).

(** A local polygon as [render_handles] produces it: at least one point,
    two coordinates each. *)
Definition coordinate_rows (rows : list (list float)) : Prop :=
  rows ≠ [] ∧ Forall (fun r => length r = 2%nat) rows.

Definition render_color (self : OpticalElement) : list float :=
  e_render_color (oe_e self).

(** [OpticalElement.update_shape] *)
Definition oe_update_shape : M OpticalElement handle_map :=
  fun self =>
    let '(handles, r) :=
      update_handles (render_color self) (e_handles (oe_e self))
                     (oe_handles self) in
    let self := set_oe_handles handles self in
    (self, _ ← r; Ok (oe_handles self)).

(** [get_label] of the three classes: the default label is stored on the
    element the first time it is asked for. *)
Definition oe_get_label : M OpticalElement string :=
  fun self =>
    match e_label (oe_e self) with
    | Some l => (self, Ok l)
    | None =>
        let l := match oe_class self with
                 | OpticalElementClass => "element"
                 | LensElementClass => "lens"
                 | MirrorElementClass => "mirror"
                 end in
        (set_oe_e (set_e_label l (oe_e self)) self, Ok l)
    end.

(** *** The actions of the shapes *)

(** A matplotlib mouse event: the pixel position, and the data position,
    which is [None] when the pointer is outside the axes. *)
Record MouseEvent : Type := mkMouseEvent {
  ev_x : float;
  ev_y : float;
  ev_xdata : option float;
  ev_ydata : option float
}.

(** [a - b] on data coordinates: with a [None] operand Python's [-]
    raises [TypeError]. *)
Definition py_sub (a b : option float) : result float :=
  match a, b with
  | Some a, Some b => Ok (a - b)
  | _, _ => Raise TypeError
  end.

(** [inv_transform_poly(tfrm, np.array([x, y]))] for a data position. An
    array that holds [None] is an array of objects, and the first matrix
    product raises [TypeError] on it. *)
Definition inv_transform_point (tfrm : transform)
    (gbl_pt : option float * option float) : result ndarray :=
  match gbl_pt with
  | (Some x, Some y) => inv_transform_poly tfrm (A1 [x; y])
  | _ => Raise TypeError
  end.

Definition emit {X} (e : effect) : M (X * list effect) unit :=
  modify (fun '(x, log) => (x, (log ++ [e])%list)).

Definition on_shape {X} (f : X → X) : M (X * list effect) unit :=
  modify (fun '(x, log) => (f x, log)).

(** [handle_actions[key].actions[kind](fig, event, arg)] *)
Definition call {X} (key kind : string) (h : handler) (arg : action_arg)
    : M (X * list effect) unit :=
  emit (Invoke key kind (h_id h) arg);;
  match h_raises h with
  | Some e => lift (Raise e)
  | None => mret tt
  end.

Fixpoint for_each {S A} (body : A → M S unit) (l : list A) : M S unit :=
  match l with
  | [] => mret tt
  | a :: l' => body a;; for_each body l'
  end.

Definition on_select_shape (handle : string) (event : MouseEvent)
    : M (OpticalElement * list effect) unit :=
  '(self, _) ← get;
  handle_actions ← lift (py_getitem (handle_actions self) handle);
  for_each (fun '(key, action_obj) =>
              h ← lift (py_getitem (ao_actions action_obj) "press");
              call key "press" h NoArg)
           handle_actions;;
  on_shape (set_select_pt
              (Some ((ev_x event, ev_y event),
                     (ev_xdata event, ev_ydata event)))).

(** The differences of the data positions are taken before the lock is
    looked at; they raise [TypeError] when the press or the pointer was
    outside the axes. *)
Definition on_edit_shape (handle : string) (event : MouseEvent)
    : M (OpticalElement * list effect) unit :=
  '(self, _) ← get;
  handle_actions ← lift (py_getitem (handle_actions self) handle);
  select_pt ← lift (getattr (select_pt self));
  '((x, y), (xdata, ydata)) ←
    lift (match select_pt with
          | Some pt => Ok pt
          | None => Raise TypeError
          end);
  let delta_x := abs (x - ev_x event) in
  let delta_y := abs (y - ev_y event) in
  dx ← lift (py_sub xdata (ev_xdata event));
  dy ← lift (py_sub ydata (ev_ydata event));
  let delta_xdata := abs dx in
  let delta_ydata := abs dy in
  direction ← lift (getattr (move_direction self));
  match direction with
  | None =>
      if delta_y <? delta_x then on_shape (set_move_direction (Some "x"))
      else if delta_x <? delta_y
           then on_shape (set_move_direction (Some "y"))
           else on_shape (set_move_direction None)
  | Some _ => mret tt
  end;;
  let gbl_pt := (ev_xdata event, ev_ydata event) in
  '(self, _) ← get;
  value ← lift (od_getitem (e_handles (oe_e self)) handle);
  lcl_pt ← lift (inv_transform_point (snd (fst value)) gbl_pt);
  dxdy0 ← lift (py_sub (ev_xdata event) xdata);
  dxdy1 ← lift (py_sub (ev_ydata event) ydata);
  let dxdy := (dxdy0, dxdy1) in
  match od_lookup handle_actions "pt" with
  | Some pt_obj =>
      match ao_actions pt_obj !! "drag" with
      | Some h => call "pt" "drag" h (PtArg lcl_pt)
      | None => mret tt
      end
  | None =>
      direction ← lift (getattr (move_direction self));
      match direction with
      | None => mret tt
      | Some dir =>
          match od_lookup handle_actions dir with
          | None => mret tt
          | Some dir_obj =>
              match ao_actions dir_obj !! "drag" with
              | None => mret tt
              | Some h =>
                  if String.eqb dir "x"
                  then call "x" "drag" h (DeltaArg (fst dxdy))
                  else if String.eqb dir "y"
                       then call "y" "drag" h (DeltaArg (snd dxdy))
                       else mret tt
              end
          end
      end
  end;;
  emit RefreshGui.

(** What a drag does to the world when the handle has a ['pt'] action
    object: the call of its drag handler with the point [lcl_pt], and the GUI
    refresh if the handler returns. *)
Definition pt_drag_effects (pt_obj : ActionObj) (lcl_pt : ndarray)
    : list effect :=
  match ao_actions pt_obj !! "drag" with
  | Some h =>
      Invoke "pt" "drag" (h_id h) (PtArg lcl_pt)
      :: match h_raises h with
         | Some _ => []
         | None => [RefreshGui]
         end
  | None => [RefreshGui]
  end.

(** The point that [inv_transform_poly] returns for the point [(x, y)],
    written out: the coordinates are swapped, the translation
    [(t[1], t[2])] is subtracted, the block [rot[1:, 1:]] is applied, and
    the coordinates are swapped back, every inner product summed from
    [0.0]. *)
Definition drag_point (tfrm : transform) (x y : float) : ndarray :=
  let '(rot, t) := tfrm in
  let u := 0 + 0 * x + 1 * y - c1 t in
  let v := 0 + 1 * x + 0 * y - c2 t in
  let u' := 0 + c1 (r1 rot) * u + c2 (r1 rot) * v in
  let v' := 0 + c1 (r2 rot) * u + c2 (r2 rot) * v in
  A1 [0 + u' * 0 + v' * 1; 0 + u' * 1 + v' * 0].

(** A call of an axis-locked action object. *)
Definition is_axis_call (e : effect) : Prop :=
  match e with
  | Invoke key _ _ _ => key = "x" ∨ key = "y"
  | _ => False
  end.

Definition on_release_shape (handle : string) (event : MouseEvent)
    : M (OpticalElement * list effect) unit :=
  emit (Print (ev_x event) (ev_y event));;
  '(self, _) ← get;
  handle_actions ← lift (py_getitem (handle_actions self) handle);
  for_each (fun '(key, action_obj) =>
              h ← lift (py_getitem (ao_actions action_obj) "release");
              call key "release" h NoArg)
           handle_actions;;
  on_shape (set_select_pt None);;
  on_shape (set_move_direction None).

(** [OpticalElement.edit_shape_actions]: the action table of an optical
    element. *)
Definition edit_shape_actions
    : gmap string (string → MouseEvent
                   → M (OpticalElement * list effect) unit) :=
  <["release" := on_release_shape]>
    (<["drag" := on_edit_shape]>
       (<["press" := on_select_shape]> ∅)).

Definition on_select_ray (handle : string) (event : MouseEvent)
    : M (RayBundle * list effect) unit :=
  if negb (String.eqb handle "shape") then
    '(self, _) ← get;
    (if ray_table_callback self then mret tt else lift (Raise TypeError));;
    rayset ← lift (getattr (rayset self));
    r ← lift (od_getitem rayset handle);
    emit (RayTableRoot (ray r));;
    emit RefreshGui
  else mret tt.

(** [RayBundle.edit_ray_bundle_actions]: the action table of a ray
    bundle. *)
Definition edit_ray_bundle_actions
    : gmap string (string → MouseEvent
                   → M (RayBundle * list effect) unit) :=
  <["press" := on_select_ray]> ∅.

(** *** Gestures on an optical element *)

(** The transformed first-surface point of a ray, [rot.dot(r.ray[1].p) - t],
    and its transformed direction at the object, [rot.dot(r.ray[0].d)];
    a ray too short to have them gives the zero vector. *)
Definition b4_pt_of (rot : mat3) (t : vec3) (r : RayPkg) : vec3 :=
  match ray r !! 1%nat with
  | Some seg1 => vsub (mdot rot (rs_p seg1)) t
  | None => Vec3 0 0 0
  end.

Definition b4_dir_of (rot : mat3) (r : RayPkg) : vec3 :=
  match ray r !! 0%nat with
  | Some seg0 => mdot rot (rs_d seg0)
  | None => Vec3 0 0 0
  end.

(** What [shift_start_of_ray_bundle] guarantees of the start segment [s]
    that it stores for the ray [r]: the transformed direction, the normal
    of the ray's first segment, and a start point on the transformed ray,
    [dst] along it from the transformed first-surface point. *)
Definition shifted_start (rot : mat3) (t : vec3) (r : RayPkg) (s : RaySeg)
    : Prop :=
  rs_d s = b4_dir_of rot r
  ∧ rs_nrml <$> ray r !! 0%nat = Some (rs_nrml s)
  ∧ rs_p s = vadd (b4_pt_of rot t r) (vscale (rs_dst s) (b4_dir_of rot r)).

(** The entries that the loop of [OpticalElement.update_shape] stores, in
    order, and how the loop ends: [update_handles] without the mapping. *)
Fixpoint rebuilt_entries (render_color : list float)
    (items : odict handle_value)
    : list (string * (artifact * ndarray)) * result unit :=
  match items with
  | [] => ([], Ok tt)
  | (key, (value0, value1, value2)) :: rest =>
      match transform_poly value1 (array value0) with
      | Raise e => ([], Raise e)
      | Ok (poly_gbl, bbox) =>
          if String.eqb value2 "polygon" then
            match create_polygon poly_gbl render_color (Some (5 # 2)%Q) with
            | Raise e => ([], Raise e)
            | Ok p =>
                let '(entries, r) := rebuilt_entries render_color rest in
                ((key, (p, bbox)) :: entries, r)
            end
          else if String.eqb value2 "polyline" then
            match create_polyline poly_gbl with
            | Raise e => ([], Raise e)
            | Ok p =>
                let '(entries, r) := rebuilt_entries render_color rest in
                ((key, (p, bbox)) :: entries, r)
            end
          else ([], Ok tt)
      end
  end.

(** [handles[key] = entry] for each of [entries], in order. *)
Definition store_all (entries : list (string * (artifact * ndarray)))
    (handles : handle_map) : handle_map :=
  foldl (fun handles kv => <[kv.1 := kv.2]> handles) handles entries.

(** The calls that a press or a release makes into the action objects of a
    handle, in the order of the table. *)
Definition calls_of (kind : string) (table : handle_action_table)
    : list effect :=
  flat_map (fun '(key, action_obj) =>
              match ao_actions action_obj !! kind with
              | Some h => [Invoke key kind (h_id h) NoArg]
              | None => []
              end) table.

(** Every action object of the table has a handler for [kind], and the
    handler returns. *)
Definition all_return (kind : string) (table : handle_action_table) : Prop :=
  Forall (fun kv => ∃ h, ao_actions kv.2 !! kind = Some h
                         ∧ h_raises h = None) table.

(** The drags of one gesture on one handle of a shape, in order; an
    exception ends that drag, not the gesture. *)
Definition drags (handle : string) (events : list MouseEvent)
    (s : OpticalElement * list effect) : OpticalElement * list effect :=
  foldl (fun s event => (on_edit_shape handle event s).1) s events.

(** A whole gesture on one handle: press, drags, release. *)
Definition gesture (handle : string) (press : MouseEvent)
    (moves : list MouseEvent) (release : MouseEvent)
    (s : OpticalElement * list effect)
    : (OpticalElement * list effect) * result unit :=
  on_release_shape handle release
    (drags handle moves (on_select_shape handle press s).1).

(** The pointer is inside the axes: the event has a data position. *)
Definition in_axes (event : MouseEvent) : bool :=
  match ev_xdata event, ev_ydata event with
  | Some _, Some _ => true
  | _, _ => false
  end.

(** The difference in data coordinates that an axis-locked drag passes
    on, from the data position [from] of the press to the data position
    [to] of the pointer. *)
Definition axis_delta (dir : string) (from to : float * float) : float :=
  if String.eqb dir "x" then to.1 - from.1 else to.2 - from.2.

(** The lock that the first drag of a gesture sets, from the pixel
    distances to the press point. *)
Definition first_lock (press_pt : press_point) (event : MouseEvent)
    : option string :=
  let delta_x := abs (press_pt.1.1 - ev_x event) in
  let delta_y := abs (press_pt.1.2 - ev_y event) in
  if delta_y <? delta_x then Some "x"
  else if delta_x <? delta_y then Some "y"
  else None.

End Layout.

(** ** rayoptics/mpl/interactivelayout.py: the interactive figure *)

Module InteractiveLayout.

Import Layout.

Inductive shape : Type :=
| OE (oe : OpticalElement)
| RB (rb : RayBundle).

(** An artist of the axes. [art_id] is the identity of the Python object;
    [art_shape] is the [(shape, handle key)] attribute that
    [update_patches] attaches, the shape being a reference into the
    figure's shapes; [art_contains] is the renderer's [contains] test. *)
Record Artist : Type := mkArtist {
  art_id : nat;
  art_shape : option (nat * string);
  art_zorder : Q;
  art_contains : MouseEvent → bool
}.

(** The figure. [ax_children] is [self.ax.get_children()], in the order
    in which [plot] added the artists; [shapes] holds the shape objects
    that the artists refer to; [effects] is what the figure and its shapes
    have done to the world outside so far. *)
Record Figure : Type := mkFigure {
  do_scale_bounds : bool;
  hilited_artist : option Artist;
  selected_artist : option Artist;
  ax_children : list Artist;
  shapes : nat → shape;
  effects : list effect
}.

Definition set_do_scale_bounds (b : bool) (fig : Figure) : Figure :=
  mkFigure b (hilited_artist fig) (selected_artist fig) (ax_children fig)
           (shapes fig) (effects fig).
Definition set_hilited_artist (a : option Artist) (fig : Figure) : Figure :=
  mkFigure (do_scale_bounds fig) a (selected_artist fig) (ax_children fig)
           (shapes fig) (effects fig).
Definition set_selected_artist (a : option Artist) (fig : Figure) : Figure :=
  mkFigure (do_scale_bounds fig) (hilited_artist fig) a (ax_children fig)
           (shapes fig) (effects fig).
Definition set_shape_effects (sid : nat) (sh : shape) (log : list effect)
    (fig : Figure) : Figure :=
  mkFigure (do_scale_bounds fig) (hilited_artist fig) (selected_artist fig)
           (ax_children fig) (<[sid:=sh]> (shapes fig)) log.
Definition add_effect (e : effect) (fig : Figure) : Figure :=
  mkFigure (do_scale_bounds fig) (hilited_artist fig) (selected_artist fig)
           (ax_children fig) (shapes fig) (effects fig ++ [e])%list.

(** [shape, handle = artist.shape] *)
Definition artist_shape (a : Artist) : result (nat * string) :=
  match art_shape a with
  | Some sh => Ok sh
  | None => Raise AttributeError
  end.

(** [shape.get_label()] on the shape that [sid] refers to. *)
Definition get_label (sid : nat) : M Figure string :=
  fun fig =>
    match shapes fig sid with
    | OE oe =>
        let '(oe', r) := oe_get_label oe in
        (set_shape_effects sid (OE oe') (effects fig) fig, r)
    | RB rb => (fig, Ok (fld_label rb))
    end.

(** [sorted(artists, key=lambda a: a.get_zorder(), reverse=True)]:
    Python's sort is stable, also when reversed, so artists of equal
    z-order keep the order they had in [artists]. *)
Fixpoint insert_by_zorder (a : Artist) (l : list Artist) : list Artist :=
  match l with
  | [] => [a]
  | b :: l' =>
      if Qlt_le_dec (art_zorder a) (art_zorder b)
      then b :: insert_by_zorder a l'
      else a :: l
  end.

Definition sorted_by_zorder_reverse (artists : list Artist) : list Artist :=
  foldr insert_by_zorder [] artists.

(** The artists that the loop of [find_artists_at_location] appends. *)
Definition hit (event : MouseEvent) (artist : Artist) : bool :=
  match art_shape artist with
  | Some _ => art_contains artist event
  | None => false
  end.

Definition find_artists_at_location (event : MouseEvent)
    : M Figure (list Artist) :=
  fig ← get;
  let artists := filter (fun a => hit event a = true) (ax_children fig) in
  for_each (fun artist =>
              '(sid, handle) ← lift (artist_shape artist);
              _ ← get_label sid;
              mret tt)
           artists;;
  mret (sorted_by_zorder_reverse artists).

(** A shape's action, run on the shape object that [sid] refers to. *)
Definition run_oe (sid : nat) (oe : OpticalElement)
    (action : M (OpticalElement * list effect) unit) : M Figure unit :=
  fun fig =>
    let '((oe', log), r) := action (oe, effects fig) in
    (set_shape_effects sid (OE oe') log fig, r).

Definition run_rb (sid : nat) (rb : RayBundle)
    (action : M (RayBundle * list effect) unit) : M Figure unit :=
  fun fig =>
    let '((rb', log), r) := action (rb, effects fig) in
    (set_shape_effects sid (RB rb') log fig, r).

(** The keys of [shape.actions]. *)
Definition action_keys (sh : shape) : gset string :=
  match sh with
  | OE _ => dom edit_shape_actions
  | RB _ => dom edit_ray_bundle_actions
  end.

(** [action = shape.actions[event_key]; action(self, handle, event)] *)
Definition shape_action (sid : nat) (handle : string) (event : MouseEvent)
    (event_key : string) : M Figure unit :=
  fig ← get;
  match shapes fig sid with
  | OE oe =>
      action ← lift (py_getitem edit_shape_actions event_key);
      run_oe sid oe (action handle event)
  | RB rb =>
      action ← lift (py_getitem edit_ray_bundle_actions event_key);
      run_rb sid rb (action handle event)
  end.

Definition do_action (event : MouseEvent) (target_artist : option Artist)
    (event_key : string) : M Figure unit :=
  match target_artist with
  | Some artist =>
      '(sid, handle) ← lift (artist_shape artist);
      except_KeyError_pass (shape_action sid handle event event_key)
  | None => mret tt
  end.

Definition on_press (event : MouseEvent) : M Figure unit :=
  modify (set_do_scale_bounds false);;
  fig ← get;
  let target_artist := hilited_artist fig in
  modify (set_selected_artist target_artist);;
  do_action event target_artist "press".

Definition same_id (a b : option Artist) : bool :=
  bool_decide (art_id <$> a = art_id <$> b).

Definition on_motion (event : MouseEvent) : M Figure unit :=
  fig ← get;
  match selected_artist fig with
  | None =>
      artists ← find_artists_at_location event;
      let next_hilited_artist := head artists in
      fig ← get;
      if negb (same_id next_hilited_artist (hilited_artist fig)) then
        match hilited_artist fig with
        | Some a => modify (add_effect (Unhighlight (art_id a)));;
                    modify (add_effect CanvasDraw)
        | None => mret tt
        end;;
        match next_hilited_artist with
        | Some a => modify (add_effect (Highlight (art_id a)));;
                    modify (add_effect CanvasDraw)
        | None => mret tt
        end;;
        modify (set_hilited_artist next_hilited_artist);;
        match next_hilited_artist with
        | None => mret tt
        | Some a =>
            '(sid, handle) ← lift (artist_shape a);
            _ ← get_label sid;
            mret tt
        end
      else mret tt
  | Some artist =>
      do_action event (Some artist) "drag";;
      '(sid, handle) ← lift (artist_shape artist);
      _ ← get_label sid;
      mret tt
  end.

Definition on_release (event : MouseEvent) : M Figure unit :=
  fig ← get;
  do_action event (selected_artist fig) "release";;
  modify (set_do_scale_bounds true);;
  modify (set_selected_artist None).

(** Two states of the figure that differ in their shape objects only. *)
Definition only_shapes_differ (fig fig' : Figure) : Prop :=
  do_scale_bounds fig' = do_scale_bounds fig
  ∧ hilited_artist fig' = hilited_artist fig
  ∧ selected_artist fig' = selected_artist fig
  ∧ ax_children fig' = ax_children fig
  ∧ effects fig' = effects fig.

(** The artists under the pointer, in the order of the axes' children. *)
Definition candidates (event : MouseEvent) (fig : Figure) : list Artist :=
  filter (fun a => hit event a = true) (ax_children fig).

(** [target] has the highest z-order of [artists] and is the first of
    those that have it. *)
Definition topmost_first (artists : list Artist) (target : Artist) : Prop :=
  ∃ before after,
    artists = (before ++ target :: after)%list
    ∧ Forall (fun b => (art_zorder b < art_zorder target)%Q) before
    ∧ Forall (fun b => (art_zorder b <= art_zorder target)%Q) after.

(** [target] has the highest z-order of [artists] and is the last of
    those that have it. *)
Definition topmost_last (artists : list Artist) (target : Artist) : Prop :=
  ∃ before after,
    artists = (before ++ target :: after)%list
    ∧ Forall (fun b => (art_zorder b <= art_zorder target)%Q) before
    ∧ Forall (fun b => (art_zorder b < art_zorder target)%Q) after.


(** The motion events of one gesture, in order; an exception that leaves a
    handler ends that event, not the gesture. *)
Definition drag_through (events : list MouseEvent) (fig : Figure) : Figure :=
  foldl (fun fig event => fst (on_motion event fig)) fig events.


(** The shape [sid] is an optical element whose drag is locked to [dir]. *)
Definition locked (fig : Figure) (sid : nat) (dir : string) : Prop :=
  ∃ oe, shapes fig sid = OE oe ∧ move_direction oe = Attr (Some dir).

(** Two states of the figure with the same flag, hover target, drag
    target and children. *)
Definition same_view (fig fig' : Figure) : Prop :=
  do_scale_bounds fig' = do_scale_bounds fig
  ∧ hilited_artist fig' = hilited_artist fig
  ∧ selected_artist fig' = selected_artist fig
  ∧ ax_children fig' = ax_children fig.

(** What the renderer is asked to do when the hover target changes from
    [old] to [new]. *)
Definition hover_effects (old new : option Artist) : list effect :=
  if same_id new old then []
  else (match old with
        | Some a => [Unhighlight (art_id a); CanvasDraw]
        | None => []
        end
        ++ match new with
           | Some a => [Highlight (art_id a); CanvasDraw]
           | None => []
           end)%list.

(** The artist that a motion without a drag makes the hover target. *)
Definition hit_target (event : MouseEvent) (fig : Figure) : option Artist :=
  head (sorted_by_zorder_reverse (candidates event fig)).

(** No artist of [artists] comes before one of higher z-order. *)
Definition by_zorder_descending (artists : list Artist) : Prop :=
  ∀ before a after,
    artists = (before ++ a :: after)%list →
    Forall (fun b => (art_zorder b <= art_zorder a)%Q) after.

(** The artists of [artists] that have z-order [q], in order. *)
Definition at_zorder (q : Q) (artists : list Artist) : list Artist :=
  filter (fun a => Qeq_bool (art_zorder a) q = true) artists.

End InteractiveLayout.

(** ** Concrete inputs *)

Module Cases.

Import Np Layout InteractiveLayout.
Local Open Scope float_scope.

Definition zero3 : vec3 := Vec3 0 0 0.
Definition identity : mat3 := Mat3 (Vec3 1 0 0) (Vec3 0 1 0) (Vec3 0 0 1).
(** A quarter turn about the x axis. *)
Definition quarter_turn : mat3 :=
  Mat3 (Vec3 1 0 0) (Vec3 0 0 (-1)) (Vec3 0 1 0).

Definition triangle : ndarray := A2 [[0; 0]; [1; 0]; [0; 1]].
Definition two_points : ndarray := A2 [[1; 0]; [0; 1]].

(** [transform_poly] followed by [inv_transform_poly], same transform. *)
Definition round_trip (tfrm : transform) (poly : ndarray) : result ndarray :=
  '(poly_gbl, _) ← transform_poly tfrm poly;
  inv_transform_poly tfrm poly_gbl.

(** A model whose object surface is 100 in front of the first surface,
    and a bundle that starts its rays 10 in front of it. *)
Definition reverse_transform0 (s0 : nat) (g0 : float * nat) (s1 : nat)
    : transform :=
  (identity, Vec3 0 0 (fst g0)).

Definition seq_model0 : SeqModel :=
  mkSeqModel [(identity, Vec3 0 0 (-100)); (identity, zero3)] [0; 1]%nat
             [0%nat].

Definition bundle0 : RayBundle :=
  mkRayBundle "F1" 0.5 10 ∅ NoAttr true.

Definition seg (p d : vec3) : RaySeg := mkRaySeg p d 0 (Vec3 0 0 1).

Definition full_ray (y : float) : RayPkg :=
  mkRayPkg [seg (Vec3 0 0 0) (Vec3 0 0 1); seg (Vec3 0 y 0) (Vec3 0 0 1)].

(** Boundary rays whose chief ray stops at the object surface. *)
Definition truncated_rayset : odict RayPkg :=
  [("00", mkRayPkg [seg (Vec3 0 0 0) (Vec3 0 0 1)]);
   ("+X", full_ray 0); ("-X", full_ray 0);
   ("+Y", full_ray 1); ("-Y", full_ray (-1))].

(** The start point of the chief ray is left where it was. *)
Definition chief_start_unchanged (start_bundle : list RaySeg)
    (ray_bundle : list RayPkg) (rot : mat3) (t : vec3) : Prop :=
  ∃ start_bundle',
    shift_start_of_ray_bundle start_bundle ray_bundle rot t
      = Ok start_bundle'
    ∧ rs_p <$> start_bundle' !! 0%nat = rs_p <$> start_bundle !! 0%nat.

(** A chief ray that leaves the object at right angles to the axis. *)
Definition sideways_ray : RayPkg :=
  mkRayPkg [seg (Vec3 0 0 (-100)) (Vec3 0 1 0);
            seg (Vec3 0 5 0) (Vec3 0 1 0)].

(** A chief ray that meets the first surface at z = 5, travelling back
    along the axis. *)
Definition backward_ray : RayPkg :=
  mkRayPkg [seg (Vec3 0 0 (-100)) (Vec3 0 0 (-1));
            seg (Vec3 0 0 5) (Vec3 0 0 (-1))].

(** [update_shape] returns one entry per rendered handle and nothing
    else. *)
Definition rebuilt_in_full (self : OpticalElement) : Prop :=
  ∃ self' res,
    oe_update_shape self = (self', Ok res)
    ∧ ∀ key, is_Some (res !! key)
             ↔ is_Some (od_lookup (e_handles (oe_e self)) key).

Definition unit_square : list (list float) := [[0; 0]; [1; 0]; [1; 1]; [0; 1]].

(** An element with three handles, the second with a tag that the loop does
    not know, in a shape that still holds a handle of an earlier call. *)
Definition element0 : Element :=
  mkElement IsElement
    [("outline", (unit_square, (identity, zero3), "polygon"));
     ("axis", ([[0; 0]; [1; 0]], (identity, zero3), "centerline"));
     ("edge", ([[0; 0]; [0; 1]], (identity, zero3), "polyline"))]
    [158; 179; 225] None ∅.

Definition stale_shape : OpticalElement :=
  mkOpticalElement LensElementClass element0
    {["old" := (Line2D (A1 [0]) (A1 [0]), A2 [[0; 0]; [0; 0]])]}
    ∅ (Attr None) (Attr None).

(** A press changes nothing at all. *)
Definition press_changes_nothing (fig : Figure) (event : MouseEvent) : Prop :=
  on_press event fig = (fig, Ok tt).

(** A pointer position, in pixels and in data coordinates. *)
Definition pointer : MouseEvent := mkMouseEvent 120 80 (Some 3) (Some 1).

Definition plain_lens : OpticalElement :=
  create_optical_element (mkElement IsElement [] [158; 179; 225] None ∅).

Definition idle_figure : Figure :=
  mkFigure true None None [] (fun _ => OE plain_lens) [].

Definition ray_artist : Artist :=
  mkArtist 7 (Some (1%nat, "00")) 2%Q (fun _ => true).

Definition ray_figure : Figure :=
  mkFigure false (Some ray_artist) (Some ray_artist) [ray_artist]
           (<[1%nat := RB bundle0]> (fun _ => OE plain_lens)) [].

(** The hit target is the most recently added of the topmost artists. *)
Definition hit_target_is_latest (fig : Figure) (event : MouseEvent) : Prop :=
  ∀ fig' artists target,
    find_artists_at_location event fig = (fig', Ok artists) →
    head artists = Some target →
    topmost_last (candidates event fig) target.

Definition everywhere (event : MouseEvent) : bool := true.

(** Artists of one lens that all lie under the pointer. *)
Definition first_added : Artist :=
  mkArtist 1 (Some (0%nat, "shape")) 2%Q everywhere.
Definition added_later : Artist :=
  mkArtist 2 (Some (0%nat, "s1_profile")) 2%Q everywhere.
Definition lower : Artist :=
  mkArtist 3 (Some (0%nat, "s2_profile")) 1%Q everywhere.

Definition tie_figure : Figure :=
  mkFigure true None None [first_added; added_later]
           (fun _ => OE plain_lens) [].

Definition stacked_figure : Figure :=
  mkFigure true None None [lower; added_later]
           (fun _ => OE plain_lens) [].

Definition bend : handler := mkHandler 11 None.
Definition slide : handler := mkHandler 12 None.
Definition resize : handler := mkHandler 13 None.

Definition action_obj (h : handler) : ActionObj :=
  mkActionObj (<["release" := h]> (<["drag" := h]> (<["press" := h]> ∅))).

(** The action objects of a lens outline: slide along the axis, bend,
    resize. *)
Definition lens_table : handle_action_table :=
  [("x", action_obj slide); ("pt", action_obj bend); ("y", action_obj resize)].

Definition lens_element : Element :=
  mkElement IsElement
    [("shape", (unit_square, (quarter_turn, Vec3 0 0 2), "polygon"))]
    [158; 179; 225] None {["shape" := lens_table]}.

(** A lens in the middle of a drag that is locked to the x axis. *)
Definition dragged_lens : OpticalElement :=
  set_move_direction (Some "x")
    (set_select_pt (Some ((100, 80), (Some 2, Some 1)))
       (create_optical_element lens_element)).

(** A pointer position outside the axes. *)
Definition outside : MouseEvent := mkMouseEvent 700 80 None None.

(** The drag calls the ['pt'] handler with the pointer position in the
    local frame of the handle: with a point that the handle's transform
    maps to the data position of the pointer. *)
Definition pt_drag_gets_local_point (self : OpticalElement)
    (handle : string) (event : MouseEvent) : Prop :=
  ∃ id a b,
    Invoke "pt" "drag" id (PtArg (A1 [a; b]))
    ∈ (on_edit_shape handle event (self, [])).1.2
    ∧ ∀ poly tfrm tag x y,
        od_lookup (e_handles (oe_e self)) handle = Some (poly, tfrm, tag) →
        ev_xdata event = Some x → ev_ydata event = Some y →
        ∃ bbox, transform_poly tfrm (A2 [[a; b]]) = Ok (A2 [[x; y]], bbox).

Definition lens_artist : Artist :=
  mkArtist 1 (Some (0%nat, "shape")) (5 # 2)%Q everywhere.

Definition dragging_figure : Figure :=
  mkFigure false (Some lens_artist) (Some lens_artist) [lens_artist]
           (fun _ => OE dragged_lens) [].

(** The same lens right after the press, with no lock yet. *)
Definition pressed_figure : Figure :=
  mkFigure false (Some lens_artist) (Some lens_artist) [lens_artist]
           (fun _ => OE (set_move_direction None dragged_lens)) [].

(** A motion to the right, then one far upwards. *)
Definition right_then_up : list MouseEvent :=
  [mkMouseEvent 110 82 (Some 3) (Some 1);
   mkMouseEvent 111 160 (Some 3) (Some 5)].

(** Two motions that are further from the press point vertically than
    horizontally. *)
Definition upward_motions : list MouseEvent :=
  [mkMouseEvent 101 120 (Some 2) (Some 3);
   mkMouseEvent 102 160 (Some 2) (Some 5)].

(** A mirror with one handle that can be moved along the axis. *)
Definition mirror_element : Element :=
  mkElement IsMirror
    [("shape", (unit_square, (identity, Vec3 0 0 5), "polygon"))]
    [158; 158; 158] None {["shape" := [("x", action_obj slide)]]}.

(** A lens whose outline has no free-point action. *)
Definition axis_table : handle_action_table :=
  [("x", action_obj slide); ("y", action_obj resize)].

Definition axis_lens : OpticalElement :=
  create_optical_element
    (mkElement IsElement
       [("shape", (unit_square, (identity, Vec3 0 0 2), "polygon"))]
       [158; 179; 225] None {["shape" := axis_table]}).

(** The five boundary rays of a field, each traced to the first surface. *)
Definition full_rayset : odict RayPkg :=
  [("00", full_ray 0); ("+X", full_ray 0); ("-X", full_ray 0);
   ("+Y", full_ray 1); ("-Y", full_ray (-1))].

(** A bundle of three rays, traced to the first surface. *)
Definition three_rays : list RayPkg :=
  [backward_ray; full_ray 1; full_ray (-1)].

Definition three_starts : list RaySeg :=
  [seg (Vec3 0 0 (-100)) (Vec3 0 0 (-1)); seg (Vec3 0 0 0) (Vec3 0 0 1);
   seg (Vec3 0 0 0) (Vec3 0 0 1)].

(** A bundle that has been rendered once, with its ray table callback. *)
Definition traced_bundle : RayBundle := set_rayset full_rayset bundle0.

(** A drag of a handle for which the lens has no action table. *)
Definition edge_artist : Artist :=
  mkArtist 2 (Some (0%nat, "edge")) 3%Q everywhere.

Definition edge_drag_figure : Figure :=
  mkFigure false (Some edge_artist) (Some edge_artist)
           [lens_artist; edge_artist] (fun _ => OE dragged_lens) [].

End Cases.

(** ** Properties of the geometry *)

Module LayoutFacts.

Import Np Layout Cases.
Local Open Scope float_scope.

(** *** IEEE division by zero *)

Lemma Prim2SF_zero : Prim2SF 0 = S754_zero false.
Proof. vm_compute. reflexivity. Qed.

Lemma eqb_zero_inv z : (z =? 0) = true → ∃ s, Prim2SF z = S754_zero s.
Proof.
  rewrite FloatAxioms.eqb_spec, Prim2SF_zero.
  destruct (Prim2SF z) as [s|s| |s m e]; cbn; try discriminate; eauto.
  all: destruct s; discriminate.
Qed.

Lemma is_nan_intro x : Prim2SF x = S754_nan → is_nan x = true.
Proof.
  intros H. unfold is_nan. rewrite FloatAxioms.eqb_spec, H. reflexivity.
Qed.

Lemma is_infinity_intro x s :
  Prim2SF x = S754_infinity s → is_infinity x = true.
Proof.
  intros H. unfold is_infinity.
  rewrite FloatAxioms.eqb_spec, FloatAxioms.abs_spec, H.
  vm_compute. reflexivity.
Qed.

Lemma div_zero x z s :
  Prim2SF z = S754_zero s →
  Prim2SF (x / z) = S754_nan ∨ ∃ s', Prim2SF (x / z) = S754_infinity s'.
Proof.
  intros H. rewrite FloatAxioms.div_spec, H. unfold SF64div, SFdiv.
  destruct (Prim2SF x); eauto.
Qed.

Lemma mul_zero_nan x z s :
  Prim2SF z = S754_zero s →
  (Prim2SF x = S754_nan ∨ ∃ s', Prim2SF x = S754_infinity s') →
  Prim2SF (x * z) = S754_nan.
Proof.
  intros H [Hx|[s' Hx]]; rewrite FloatAxioms.mul_spec, H, Hx; reflexivity.
Qed.

Lemma add_nan x y : Prim2SF y = S754_nan → Prim2SF (x + y) = S754_nan.
Proof.
  intros H. rewrite FloatAxioms.add_spec, H. unfold SF64add, SFadd.
  destruct (Prim2SF x); reflexivity.
Qed.

(** *** The start-offset shift *)

Section Shift.

Variables (rot : mat3) (t : vec3).

(** The segment that the loop stores for the chief ray. *)
Lemma shift_ray_chief r seg0 seg1 more start_bundle :
  ray r = seg0 :: seg1 :: more →
  (0 < length start_bundle)%nat →
  let b4_pt := vsub (mdot rot (rs_p seg1)) t in
  let b4_dir := mdot rot (rs_d seg0) in
  let dst := (- c2 b4_pt) / c2 b4_dir in
  shift_ray 0 r start_bundle rot t
  = Ok (<[0%nat := mkRaySeg (vadd b4_pt (vscale dst b4_dir)) b4_dir dst
                             (rs_nrml seg0)]> start_bundle).
Proof.
  intros Hr Hlen. unfold shift_ray, py_index, py_setitem. rewrite Hr. cbn.
  rewrite bool_decide_eq_true_2 by lia. reflexivity.
Qed.

(** A ray with two segments is shifted without an exception, and only
    its own slot of [start_bundle] changes. *)
Lemma shift_ray_ok ri r start_bundle :
  (2 ≤ length (ray r))%nat →
  (ri < length start_bundle)%nat →
  ∃ ray0, shift_ray ri r start_bundle rot t
          = Ok (<[ri := ray0]> start_bundle).
Proof.
  intros Hr Hlen. unfold shift_ray, py_index, py_setitem.
  destruct (ray r) as [|seg0 [|seg1 more]]; cbn in Hr; try lia. cbn.
  destruct start_bundle as [|chief rest]; cbn in Hlen; try lia.
  destruct (Nat.eqb ri 0); cbn;
    rewrite bool_decide_eq_true_2 by (cbn; lia); eauto.
Qed.

Lemma shift_loop_ok ray_bundle : ∀ ri start_bundle,
  Forall (fun r => (2 ≤ length (ray r))%nat) ray_bundle →
  (ri + length ray_bundle ≤ length start_bundle)%nat →
  ∃ start_bundle',
    shift_loop ri ray_bundle start_bundle rot t = Ok start_bundle'
    ∧ length start_bundle' = length start_bundle
    ∧ ∀ j, (j < ri)%nat → start_bundle' !! j = start_bundle !! j.
Proof.
  induction ray_bundle as [|r rest IH]; intros ri sb Hall Hlen.
  - exists sb. cbn. auto.
  - inversion Hall as [|? ? Hr Hrest]; subst. cbn in Hlen.
    destruct (shift_ray_ok ri r sb Hr) as [ray0 Hray0]; [lia|].
    destruct (IH (S ri) (<[ri:=ray0]> sb) Hrest) as (sb' & Hsb' & Hl & Hj).
    { rewrite length_insert. lia. }
    exists sb'. cbn. rewrite Hray0. cbn. rewrite Hsb'.
    split; [reflexivity|]. split.
    + rewrite Hl. apply length_insert.
    + intros j Hlt. rewrite Hj by lia.
      apply list_lookup_insert_ne. lia.
Qed.

(** The whole loop, seen from the chief ray: no exception, and slot 0
    of [start_bundle] holds the segment computed for the chief ray. *)
Lemma shift_start_chief start_bundle r rest seg0 seg1 more :
  ray r = seg0 :: seg1 :: more →
  Forall (fun r => (2 ≤ length (ray r))%nat) rest →
  length start_bundle = length (r :: rest) →
  let b4_pt := vsub (mdot rot (rs_p seg1)) t in
  let b4_dir := mdot rot (rs_d seg0) in
  let dst := (- c2 b4_pt) / c2 b4_dir in
  ∃ start_bundle',
    shift_start_of_ray_bundle start_bundle (r :: rest) rot t
      = Ok start_bundle'
    ∧ start_bundle' !! 0%nat
      = Some (mkRaySeg (vadd b4_pt (vscale dst b4_dir)) b4_dir dst
                       (rs_nrml seg0)).
Proof.
  intros Hr Hrest Hlen b4_pt b4_dir dst. cbn in Hlen.
  unfold shift_start_of_ray_bundle. cbn.
  rewrite (shift_ray_chief r seg0 seg1 more) by (auto; lia). cbn.
  edestruct (shift_loop_ok rest 1) as (sb' & Hsb' & _ & Hj); [exact Hrest| |].
  2:{ exists sb'. rewrite Hsb'. split; [reflexivity|].
      rewrite Hj by lia. apply list_lookup_insert_eq. lia. }
  rewrite length_insert. lia.
Qed.

End Shift.

(** C3, as the specification states it, fails: a chief ray that leaves the
    object at right angles to the axis has direction z = 0; the shift
    raises nothing and replaces the start point by (NaN, inf, NaN). *)
Lemma degenerate_shift_moves_the_start_point :
  ¬ chief_start_unchanged [seg (Vec3 0 0 (-100)) (Vec3 0 1 0)]
      [sideways_ray] identity (Vec3 0 0 10).
Proof.
  intros (sb' & Hsb' & Hp). vm_compute in Hsb'. injection Hsb' as <-.
  apply (f_equal (fun o => match o with
                           | Some v => is_nan (c2 v)
                           | None => false
                           end)) in Hp.
  vm_compute in Hp. discriminate.
Qed.

(** C3, amended. When the transformed direction of the chief ray has
    z = 0 (either zero of IEEE arithmetic), the shift raises nothing and
    there is no fallback: the chief ray's start segment is replaced, its
    distance [dst = -b4_pt_z / b4_dir_z] is infinite or NaN, and the z
    coordinate of its new start point is NaN. *)
Theorem degenerate_shift_stores_non_finite_start
    rot t start_bundle r rest seg0 seg1 more :
  ray r = seg0 :: seg1 :: more →
  Forall (fun r => (2 ≤ length (ray r))%nat) rest →
  length start_bundle = length (r :: rest) →
  (c2 (mdot rot (rs_d seg0)) =? 0) = true →
  ∃ start_bundle' chief,
    shift_start_of_ray_bundle start_bundle (r :: rest) rot t
      = Ok start_bundle'
    ∧ start_bundle' !! 0%nat = Some chief
    ∧ rs_dst chief
      = (- c2 (vsub (mdot rot (rs_p seg1)) t)) / c2 (mdot rot (rs_d seg0))
    ∧ (is_nan (rs_dst chief) || is_infinity (rs_dst chief)) = true
    ∧ is_nan (c2 (rs_p chief)) = true.
Proof.
  intros Hr Hrest Hlen Hz.
  destruct (shift_start_chief rot t start_bundle r rest seg0 seg1 more
              Hr Hrest Hlen) as (sb' & Hsb' & Hchief).
  destruct (eqb_zero_inv _ Hz) as [s Hs].
  eexists _, _. split; [exact Hsb'|]. split; [exact Hchief|].
  cbn [rs_dst rs_p c2 vadd vscale].
  split; [reflexivity|].
  set (dst := (- _) / _) in *.
  assert (Hdst : Prim2SF dst = S754_nan
                 ∨ ∃ s', Prim2SF dst = S754_infinity s')
    by (apply (div_zero _ _ s), Hs).
  split.
  - destruct Hdst as [Hn|[s' Hi]].
    + rewrite (is_nan_intro _ Hn). reflexivity.
    + rewrite (is_infinity_intro _ _ Hi). apply orb_true_r.
  - apply is_nan_intro, add_nan. exact (mul_zero_nan _ _ s Hs Hdst).
Qed.

Lemma degenerate_shift_stores_non_finite_start_witness :
  ∃ start_bundle' chief,
    shift_start_of_ray_bundle [seg (Vec3 0 0 (-100)) (Vec3 0 1 0)]
      [sideways_ray] identity (Vec3 0 0 10) = Ok start_bundle'
    ∧ start_bundle' !! 0%nat = Some chief
    ∧ rs_dst chief
      = (- c2 (vsub (mdot identity (Vec3 0 5 0)) (Vec3 0 0 10)))
        / c2 (mdot identity (Vec3 0 1 0))
    ∧ (is_nan (rs_dst chief) || is_infinity (rs_dst chief)) = true
    ∧ is_nan (c2 (rs_p chief)) = true.
Proof.
  apply (degenerate_shift_stores_non_finite_start identity (Vec3 0 0 10)
           [seg (Vec3 0 0 (-100)) (Vec3 0 1 0)] sideways_ray []
           (seg (Vec3 0 0 (-100)) (Vec3 0 1 0))
           (seg (Vec3 0 5 0) (Vec3 0 1 0)) []).
  - reflexivity.
  - constructor.
  - reflexivity.
  - vm_compute. reflexivity.
Defined.

(** C9. A chief ray whose transformed point has z = 5 and whose
    transformed direction has z = -1 gets [dst = 5], and its shifted
    start point lies on the virtual plane, z = 0. *)
Theorem chief_ray_shift_distance
    rot t start_bundle r rest seg0 seg1 more :
  ray r = seg0 :: seg1 :: more →
  Forall (fun r => (2 ≤ length (ray r))%nat) rest →
  length start_bundle = length (r :: rest) →
  c2 (vsub (mdot rot (rs_p seg1)) t) = 5 →
  c2 (mdot rot (rs_d seg0)) = -1 →
  ∃ start_bundle' chief,
    shift_start_of_ray_bundle start_bundle (r :: rest) rot t
      = Ok start_bundle'
    ∧ start_bundle' !! 0%nat = Some chief
    ∧ rs_dst chief = 5
    ∧ c2 (rs_p chief) = 0.
Proof.
  intros Hr Hrest Hlen Hpt Hdir.
  destruct (shift_start_chief rot t start_bundle r rest seg0 seg1 more
              Hr Hrest Hlen) as (sb' & Hsb' & Hchief).
  eexists _, _. split; [exact Hsb'|]. split; [exact Hchief|].
  cbn [rs_dst rs_p c2 vadd vscale].
  rewrite Hpt, Hdir. split; vm_compute; reflexivity.
Qed.

Lemma chief_ray_shift_distance_witness :
  ∃ start_bundle' chief,
    shift_start_of_ray_bundle [seg (Vec3 0 0 (-100)) (Vec3 0 0 (-1))]
      [backward_ray] identity zero3 = Ok start_bundle'
    ∧ start_bundle' !! 0%nat = Some chief
    ∧ rs_dst chief = 5
    ∧ c2 (rs_p chief) = 0.
Proof.
  apply (chief_ray_shift_distance identity zero3
           [seg (Vec3 0 0 (-100)) (Vec3 0 0 (-1))] backward_ray []
           (seg (Vec3 0 0 (-100)) (Vec3 0 0 (-1)))
           (seg (Vec3 0 0 5) (Vec3 0 0 (-1))) []).
  - reflexivity.
  - constructor.
  - reflexivity.
  - vm_compute. reflexivity.
  - vm_compute. reflexivity.
Defined.

(** C1. [inv_transform_poly] does not undo [transform_poly]. Under the
    identity transform a triangle is mapped to itself and
    [inv_transform_poly] then raises [ValueError]: the translation is
    subtracted from the transposed, 2xN array, which only broadcasts for
    N = 2. With two points and a translation, the translation is
    subtracted across the points instead of across the coordinates. With
    a quarter turn, the rotation is applied a second time instead of being
    undone, also for a single point. *)
Theorem inv_transform_poly_is_not_the_inverse :
  transform_poly (identity, zero3) triangle
    = Ok (triangle, A2 [[0; 0]; [1; 1]])
  ∧ inv_transform_poly (identity, zero3) triangle = Raise ValueError
  ∧ round_trip (identity, zero3) triangle = Raise ValueError
  ∧ round_trip (identity, Vec3 0 1 2) two_points = Ok (A2 [[2; 0]; [0; 0]])
  ∧ round_trip (quarter_turn, zero3) two_points
    = Ok (A2 [[-1; 0]; [0; -1]])
  ∧ inv_transform_poly (quarter_turn, zero3) (A1 [0; -1]) = Ok (A1 [-1; 0]).
Proof. repeat split; vm_compute; reflexivity. Qed.

(** *** [RayBundle.update_shape] and the first transform *)

Lemma set_handles_model clr poly bbox cr upr lwr self sm :
  ∃ self' r, set_handles clr poly bbox cr upr lwr (self, sm) = ((self', sm), r).
Proof.
  unfold set_handles, on_self, modify, get, lift, mbind, M_bind, mret, M_ret.
  cbn.
  repeat (match goal with
          | |- context [create_polyline ?x] => destruct (create_polyline x); cbn
          | |- context [bbox_from_poly ?x] => destruct (bbox_from_poly x); cbn
          end); eauto.
Qed.

Lemma try_render_restores traced sb tfrtm0 self sm :
  (0 < length (gbl_tfrms sm))%nat →
  ∃ r, try_finally
         ('(_, seq_model) ← get;
          lift (render_all traced sb (gbl_tfrms seq_model)))
         (set_tfrm0 tfrtm0) (self, sm)
       = ((self, set_gbl_tfrms (<[0%nat:=tfrtm0]> (gbl_tfrms sm)) sm), r).
Proof.
  intros Hlen.
  unfold try_finally, set_tfrm0, get, lift, mbind, M_bind, py_setitem. cbn.
  rewrite bool_decide_eq_true_2 by lia.
  destruct (render_all _ _ _); eauto.
Qed.

Lemma py_index_Ok {A} (l : list A) i a : py_index l i = Ok a → l !! i = Some a.
Proof. unfold py_index. destruct (l !! i); congruence. Qed.

Lemma bind_run {S A B} (m : M S A) (k : A → M S B) (s : S) :
  (m ≫= k) s = match m s with
               | (s', Ok a) => k a s'
               | (s', Raise e) => (s', Raise e)
               end.
Proof. reflexivity. Qed.

Lemma render_and_publish_restores clr tfrtm0 traced sb self sm :
  (0 < length (gbl_tfrms sm))%nat →
  ∃ self' r,
    render_and_publish clr tfrtm0 traced sb (self, sm)
    = ((self', set_gbl_tfrms (<[0%nat:=tfrtm0]> (gbl_tfrms sm)) sm), r).
Proof.
  intros Hlen. unfold render_and_publish.
  destruct (try_render_restores traced sb tfrtm0 self sm Hlen) as [r Hr].
  rewrite bind_run, Hr.
  destruct r as [[[[[poly bbox] cr] upr] lwr]|e]; [|eauto].
  apply set_handles_model.
Qed.

(** Where [update_shape] leaves the model's transforms: as they were,
    on every path but one; the override stays when the shift raises. *)
Lemma rb_update_shape_tfrms rt w traced self sm self' sm' r :
  rb_update_shape rt w traced (self, sm) = ((self', sm'), r) →
  gbl_tfrms sm' = gbl_tfrms sm
  ∨ ∃ tfrtm0 start_bundle rot t e,
      gbl_tfrms sm !! 0%nat = Some tfrtm0
      ∧ (start_offset self <? abs (c2 (snd tfrtm0))) = true
      ∧ setup_shift_of_ray_bundle rt sm (start_offset self) = Ok (rot, t)
      ∧ shift_start_of_ray_bundle start_bundle (od_values traced) rot t
        = Raise e
      ∧ r = Raise e
      ∧ gbl_tfrms sm' = <[0%nat:=(rot, t)]> (gbl_tfrms sm).
Proof.
  unfold rb_update_shape.
  unfold on_self, modify, get, lift, mbind, M_bind.
  cbn -[render_and_publish shift_if_far].
  destruct (py_index (gbl_tfrms sm) 0) as [tfrtm0|e] eqn:H0;
    cbn -[render_and_publish shift_if_far]; [|intros [= <- <- <-]; auto].
  apply py_index_Ok in H0.
  assert (Hlen : (0 < length (gbl_tfrms sm))%nat)
    by (eapply lookup_lt_Some, H0).
  destruct (mapM _ _) as [sb|e] eqn:Hsb;
    cbn -[render_and_publish shift_if_far]; [|intros [= <- <- <-]; auto].
  unfold shift_if_far. cbn [start_offset set_rayset set_wvl].
  destruct (_ <? _) eqn:Hfar.
  - unfold lift, mbind, M_bind.
    destruct (setup_shift_of_ray_bundle _ _ _) as [[rot t]|e] eqn:Hsetup;
      [|intros [= <- <- <-]; auto].
    unfold set_tfrm0 at 1, py_setitem. cbn -[render_and_publish].
    rewrite bool_decide_eq_true_2 by lia.
    destruct (shift_start_of_ray_bundle _ _ _ _) as [sb'|e] eqn:Hshift.
    + edestruct (render_and_publish_restores [254; 197; 254; 64] tfrtm0 traced sb')
        as (self1 & r1 & H1); [|rewrite H1].
      { cbn. rewrite length_insert. exact Hlen. }
      intros [= <- <- <-]. left. cbn.
      rewrite list_insert_insert_eq. apply list_insert_id, H0.
    + intros [= <- <- <-]. right. exists tfrtm0, sb, rot, t, e.
      repeat split; assumption || reflexivity.
  - unfold mret, M_ret.
    edestruct (render_and_publish_restores [254; 197; 254; 64] tfrtm0 traced sb)
      as (self1 & r1 & H1); [|rewrite H1]; [exact Hlen|].
    intros [= <- <- <-]. left. cbn. apply list_insert_id, H0.
Qed.

(** C2. When the chief ray has a single segment, [update_shape] overrides
    the first transform, [shift_start_of_ray_bundle] raises [IndexError]
    before the [try] is entered, and the override is still in [tfrms[0]]
    when the exception leaves [update_shape]. *)
Theorem update_shape_leaves_override_when_shift_raises :
  let '((_, seq_model), r) :=
    rb_update_shape reverse_transform0 0.5 truncated_rayset
                    (bundle0, seq_model0) in
  r = Raise IndexError
  ∧ gbl_tfrms seq_model0 !! 0%nat = Some (identity, Vec3 0 0 (-100))
  ∧ gbl_tfrms seq_model !! 0%nat = Some (identity, Vec3 0 0 10).
Proof. vm_compute. repeat split; reflexivity. Qed.

(** *** Shapes of the arrays in [transform_poly] *)

Lemma rows_have_true c m :
  Forall (fun r => length r = c) m → rows_have c m = true.
Proof.
  induction 1 as [|r m' Hr _ IH]; [reflexivity|].
  cbn. rewrite Hr, Nat.eqb_refl. exact IH.
Qed.

Lemma Forall_map_const {A B} (P : B → Prop) (f : A → B) (l : list A) :
  (∀ a, P (f a)) → Forall P (map f l).
Proof. intros H. induction l; constructor; auto. Qed.

Lemma transpose_shape n c m :
  (0 < n)%nat → has_shape n c m → has_shape c n (transpose m).
Proof.
  intros Hn [Hlen Hrows]. unfold transpose, ncols.
  destruct m as [|r m']; [cbn in Hlen; lia|].
  pose proof (Forall_inv Hrows) as Hr. cbn in Hr. split.
  - rewrite length_map, length_seq. exact Hr.
  - apply Forall_map_const. intros j. unfold column.
    rewrite length_map. exact Hlen.
Qed.

Lemma matmul_shape n k c x y :
  (0 < k)%nat → has_shape n k x → has_shape k c y →
  ∃ z, matmul (A2 x) (A2 y) = Ok (A2 z) ∧ has_shape n c z.
Proof.
  intros Hk [Hx Hxr] Hy. cbn. destruct Hy as [Hyl Hyr].
  rewrite rows_have_true by (rewrite Hyl; exact Hxr).
  eexists. split; [reflexivity|]. split.
  - rewrite length_map. exact Hx.
  - apply Forall_map_const. intros r. rewrite length_map.
    apply (transpose_shape k c y Hk (conj Hyl Hyr)).
Qed.

Lemma broadcast_rows_shape op n c m t :
  length t = c → has_shape n c m →
  ∃ m', broadcast_rows op m t = Ok m' ∧ has_shape n c m'.
Proof.
  intros Ht [Hlen Hrows]. revert n Hlen.
  induction Hrows as [|r m' Hr Hrows IH]; intros n Hlen.
  - exists []. split; [reflexivity|]. split; [exact Hlen|constructor].
  - destruct (IH (length m') eq_refl) as (m'' & Hm'' & Hl & Hf).
    cbn. unfold broadcast_row. rewrite Ht, Hr, Nat.eqb_refl. cbn.
    rewrite Hm''. cbn. eexists. split; [reflexivity|]. split.
    + cbn. cbn in Hlen. lia.
    + constructor; [|exact Hf]. rewrite length_zip_with. lia.
Qed.

Lemma fold_zip_with_length (f : float → float → float) c m : ∀ r,
  length r = c → Forall (fun r => length r = c) m →
  length (fold_left (zip_with f) m r) = c.
Proof.
  induction m as [|r' m' IH]; intros r Hr Hm; [exact Hr|].
  pose proof (Forall_inv Hm) as Hr'. cbn in Hr'.
  cbn. apply IH; [|exact (Forall_inv_tail Hm)].
  rewrite length_zip_with. lia.
Qed.

Lemma reduce_axis0_shape f n m :
  (0 < n)%nat → has_shape n 2 m →
  ∃ x y, reduce_axis0 f (A2 m) = Ok (A1 [x; y]).
Proof.
  intros Hn [Hlen Hrows]. destruct m as [|r m']; [cbn in Hlen; lia|].
  pose proof (Forall_inv Hrows) as Hr.
  pose proof (Forall_inv_tail Hrows) as Hm'. cbn in Hr. cbn.
  rewrite rows_have_true by (rewrite Hr; exact Hm').
  pose proof (fold_zip_with_length f 2 m' r Hr Hm') as Hfold.
  destruct (fold_left _ _ _) as [|x [|y [|? ?]]]; cbn in Hfold; try lia.
  eauto.
Qed.

Lemma bbox_from_poly_ok n m :
  (0 < n)%nat → has_shape n 2 m → ∃ bbox, bbox_from_poly (A2 m) = Ok bbox.
Proof.
  intros Hn Hm. unfold bbox_from_poly, min0, max0.
  destruct (reduce_axis0_shape minimum n m Hn Hm) as (x & y & ->).
  destruct (reduce_axis0_shape maximum n m Hn Hm) as (x' & y' & ->).
  cbn. eauto.
Qed.

Lemma transform_poly_ok tfrm n m :
  (0 < n)%nat → has_shape n 2 m →
  ∃ poly_gbl bbox,
    transform_poly tfrm (A2 m) = Ok (A2 poly_gbl, bbox)
    ∧ has_shape n 2 poly_gbl.
Proof.
  intros Hn Hm. unfold transform_poly, coord_flip, sub11, iadd, inplace.
  cbn [T].
  assert (Hflip : has_shape 2 2 [[0; 1]; [1; 0]])
    by (split; [reflexivity|repeat constructor]).
  destruct (matmul_shape 2 2 n [[0; 1]; [1; 0]] (transpose m))
    as (p1 & -> & Hp1); [lia|exact Hflip|apply transpose_shape; auto|].
  cbn [mbind result_bind].
  destruct (matmul_shape 2 2 n
              [[c1 (r1 tfrm.1); c2 (r1 tfrm.1)]; [c1 (r2 tfrm.1); c2 (r2 tfrm.1)]] p1)
    as (p2 & -> & Hp2); [lia|split; [reflexivity|repeat constructor]|exact Hp1|].
  cbn [mbind result_bind T].
  destruct (broadcast_rows_shape PrimFloat.add n 2 (transpose p2)
              [c1 tfrm.2; c2 tfrm.2])
    as (p3 & -> & Hp3); [reflexivity|apply transpose_shape; auto; lia|].
  cbn [mbind result_bind].
  destruct (matmul_shape n 2 2 p3 [[0; 1]; [1; 0]])
    as (p4 & -> & Hp4); [lia|exact Hp3|exact Hflip|].
  cbn [mbind result_bind].
  destruct (bbox_from_poly_ok n p4 Hn Hp4) as (bbox & ->).
  cbn. eauto.
Qed.

Lemma create_polyline_ok n m :
  (0 < n)%nat → has_shape n 2 m → ∃ p, create_polyline (A2 m) = Ok p.
Proof.
  intros Hn Hm. unfold create_polyline. cbn [T].
  destruct (transpose_shape n 2 m Hn Hm) as [Hl _].
  destruct (transpose m) as [|x [|y [|? ?]]]; cbn in Hl; try lia.
  cbn. eauto.
Qed.

(** *** [OpticalElement.update_shape] *)

Lemma handle_entry_ok rc value :
  known_tag value = true → coordinate_rows (fst (fst value)) →
  ∃ entry, handle_entry rc value = Ok entry.
Proof.
  destruct value as [[rows tfrm] tag]. cbn [fst snd]. intros Htag [Hne Hrows].
  unfold handle_entry.
  destruct rows as [|r rows']; [congruence|]. cbn [array].
  destruct (transform_poly_ok tfrm (length (r :: rows')) (r :: rows'))
    as (g & bbox & -> & Hg); [cbn; lia|split; [reflexivity|exact Hrows]|].
  cbn [mbind result_bind].
  destruct (String.eqb tag "polygon"); [cbn; eauto|].
  destruct (create_polyline_ok (length (r :: rows')) g) as [p ->];
    [cbn; lia|exact Hg|]. cbn. eauto.

Qed.

Lemma update_handles_step rc key value rest handles entry :
  known_tag value = true → handle_entry rc value = Ok entry →
  update_handles rc ((key, value) :: rest) handles
  = update_handles rc rest (<[key:=entry]> handles).
Proof.
  destruct value as [[rows tfrm] tag]. unfold known_tag, handle_entry.
  cbn [snd update_handles]. intros Htag Hentry.
  destruct (transform_poly tfrm (array rows)) as [[g bbox]|e]; [|discriminate].
  cbn [mbind result_bind] in Hentry.
  destruct (String.eqb tag "polygon").
  - cbn in Hentry. injection Hentry as <-. reflexivity.
  - cbn in Htag. rewrite Htag.
    destruct (create_polyline g); [|discriminate].
    cbn in Hentry. injection Hentry as <-. reflexivity.
Qed.

Lemma update_handles_stop rc key value rest handles :
  known_tag value = false →
  (∃ e, update_handles rc ((key, value) :: rest) handles = (handles, Raise e))
  ∨ update_handles rc ((key, value) :: rest) handles = (handles, Ok tt).
Proof.
  destruct value as [[rows tfrm] tag]. unfold known_tag.
  cbn [snd update_handles]. intros Htag.
  apply orb_false_elim in Htag as [-> ->].
  destruct (transform_poly tfrm (array rows)) as [[g bbox]|e]; eauto.
Qed.

Lemma update_handles_stop_ok rc key value rest handles :
  known_tag value = false → coordinate_rows (fst (fst value)) →
  update_handles rc ((key, value) :: rest) handles = (handles, Ok tt).
Proof.
  destruct value as [[rows tfrm] tag]. unfold known_tag.
  cbn [fst snd update_handles]. intros Htag [Hne Hrows].
  apply orb_false_elim in Htag as [-> ->].
  destruct rows as [|r rows']; [congruence|]. cbn [array].
  destruct (transform_poly_ok tfrm (length (r :: rows')) (r :: rows'))
    as (g & bbox & -> & _); [cbn; lia|split; [reflexivity|exact Hrows]|].
  reflexivity.
Qed.

Lemma reached_keys items key :
  key ∈ map fst (reached items) → key ∈ map fst items.
Proof.
  induction items as [|[k v] rest IH]; cbn; [auto|].
  destruct (known_tag v); cbn; [|intros H; inversion H].
  rewrite !elem_of_cons. intros [->|H]; auto.
Qed.

Lemma update_handles_spec rc items : ∀ handles,
  NoDup (map fst items) →
  Forall (fun kv => coordinate_rows (fst (fst (snd kv)))) items →
  ∃ res,
    update_handles rc items handles = (res, Ok tt)
    ∧ (∀ key value, (key, value) ∈ reached items →
         ∃ entry, handle_entry rc value = Ok entry ∧ res !! key = Some entry)
    ∧ (∀ key, key ∉ map fst (reached items) → res !! key = handles !! key).
Proof.
  induction items as [|[k v] rest IH]; intros handles Hnd Hrows.
  - exists handles. cbn. split; [reflexivity|]. split; [|auto].
    intros key value H. inversion H.
  - cbn in Hnd. apply list.NoDup_cons in Hnd as [Hk Hnd].
    pose proof (Forall_inv Hrows) as Hv. cbn in Hv.
    pose proof (Forall_inv_tail Hrows) as Hrest.
    cbn [reached]. destruct (known_tag v) eqn:Htag.
    + destruct (handle_entry_ok rc v Htag Hv) as [entry Hentry].
      rewrite (update_handles_step rc k v rest handles entry Htag Hentry).
      destruct (IH (<[k:=entry]> handles) Hnd Hrest) as (res & -> & Hin & Hout).
      exists res. split; [reflexivity|]. split.
      * intros key value. rewrite elem_of_cons. intros [[= -> ->]|H].
        -- exists entry. split; [exact Hentry|].
           rewrite Hout; [apply lookup_insert_eq|].
           intros H. apply Hk, reached_keys, H.
        -- apply Hin, H.
      * intros key. cbn. rewrite not_elem_of_cons. intros [Hne H].
        rewrite (Hout key H). apply lookup_insert_ne. congruence.
    + rewrite (update_handles_stop_ok rc k v rest handles Htag Hv).
      exists handles. split; [reflexivity|]. split; [|auto].
      intros key value H. inversion H.
Qed.

(** C6, as the specification states it, fails: the handle of an earlier
    call is still in the mapping, and the handles behind the unknown tag
    are not. *)
Lemma update_shape_keeps_and_skips : ¬ rebuilt_in_full stale_shape.
Proof.
  intros (self' & res & H & Hiff).
  assert (Hold : res !! "old"
                 = Some (Line2D (A1 [0]) (A1 [0]), A2 [[0; 0]; [0; 0]])).
  { apply (f_equal (fun out => match snd out with
                               | Ok res => res !! "old"
                               | Raise _ => None
                               end)) in H.
    vm_compute in H. symmetry. exact H. }
  destruct (Hiff "old") as [Hsome _].
  destruct Hsome as [v Hv]; [rewrite Hold; eauto|].
  vm_compute in Hv. discriminate.
Qed.

(** C6, amended. [update_shape] returns the shape's own mapping, updated
    in place: every handle in front of the first unknown tag gets the entry
    built from its polygon, and every other key keeps what it had. *)
Theorem oe_update_shape_rebuilds_reached_handles self :
  NoDup (map fst (e_handles (oe_e self))) →
  Forall (fun kv => coordinate_rows (fst (fst (snd kv))))
         (e_handles (oe_e self)) →
  ∃ res,
    oe_update_shape self = (set_oe_handles res self, Ok res)
    ∧ (∀ key value, (key, value) ∈ reached (e_handles (oe_e self)) →
         ∃ entry, handle_entry (render_color self) value = Ok entry
                  ∧ res !! key = Some entry)
    ∧ (∀ key, key ∉ map fst (reached (e_handles (oe_e self))) →
         res !! key = oe_handles self !! key).
Proof.
  intros Hnd Hrows.
  destruct (update_handles_spec (render_color self) (e_handles (oe_e self))
              (oe_handles self) Hnd Hrows) as (res & Hres & Hin & Hout).
  exists res. unfold oe_update_shape. rewrite Hres. cbn. auto.
Qed.

Lemma oe_update_shape_rebuilds_reached_handles_witness :
  ∃ res,
    oe_update_shape stale_shape = (set_oe_handles res stale_shape, Ok res)
    ∧ (∀ key value, (key, value) ∈ reached (e_handles element0) →
         ∃ entry, handle_entry (render_color stale_shape) value = Ok entry
                  ∧ res !! key = Some entry)
    ∧ (∀ key, key ∉ map fst (reached (e_handles element0)) →
         res !! key = oe_handles stale_shape !! key).
Proof.
  apply (oe_update_shape_rebuilds_reached_handles stale_shape).
  - apply (bool_decide_unpack _). vm_compute. reflexivity.
  - cbn. repeat constructor; discriminate.
Defined.

(** *** The drag action of an optical element *)

Lemma inv_transform_poly_point tfrm x y :
  inv_transform_poly tfrm (A1 [x; y]) = Ok (drag_point tfrm x y).
Proof. destruct tfrm as [rot t]. reflexivity. Qed.

Ltac split_drag :=
  repeat (cbv beta iota zeta;
          match goal with
          | |- context [match ?x with _ => _ end] =>
              lazymatch x with
              | context [match _ with _ => _ end] => fail
              | _ => destruct x eqn:?
              end
          | |- context [if ?x then _ else _] =>
              lazymatch x with
              | context [match _ with _ => _ end] => fail
              | _ => destruct x eqn:?
              end
          end).

(** A drag that reaches the dispatch, on a handle with a ['pt'] action
    object. *)
Lemma pt_drag_dispatch
    self log handle event table pt_obj pixels from x y dir poly tfrm tag :
  handle_actions self !! handle = Some table →
  od_lookup table "pt" = Some pt_obj →
  select_pt self = Attr (Some (pixels, (Some from.1, Some from.2))) →
  ev_xdata event = Some x → ev_ydata event = Some y →
  move_direction self = Attr dir →
  od_lookup (e_handles (oe_e self)) handle = Some (poly, tfrm, tag) →
  ∃ self' r,
    on_edit_shape handle event (self, log)
    = ((self', (log ++ pt_drag_effects pt_obj (drag_point tfrm x y))%list),
       r).
Proof.
  intros Htable Hpt Hpress Hx Hy Hdir Hvalue.
  unfold on_edit_shape, pt_drag_effects, call, emit, on_shape, modify, get,
    lift, py_getitem, getattr, od_getitem, inv_transform_point,
    mbind, M_bind, mret, M_ret.
  cbv beta iota zeta. rewrite Htable. cbv beta iota zeta.
  rewrite Hpress. cbv beta iota zeta.
  destruct pixels as [px py]. cbv beta iota zeta.
  rewrite Hx, Hy. cbn [py_sub]. cbv beta iota zeta.
  rewrite Hdir. cbv beta iota zeta.
  destruct dir as [d|]; [|destruct (_ <? _); [|destruct (_ <? _)]];
    cbv beta iota zeta; cbn [oe_e set_move_direction];
    rewrite Hvalue; cbv beta iota zeta; cbn [fst snd];
    rewrite inv_transform_poly_point; cbv beta iota zeta; rewrite Hpt;
    (destruct (ao_actions pt_obj !! "drag") as [h|]; cbv beta iota zeta;
     [destruct (h_raises h); cbv beta iota zeta;
      [eauto|rewrite <- app_assoc; cbn; eauto]
     |eauto]).
Qed.

(** Whatever the state of the shape and wherever the pointer is, a drag
    on a handle with a ['pt'] action object calls no axis-locked
    handler. *)
Lemma pt_drag_calls_no_axis_handler self log handle event table pt_obj :
  handle_actions self !! handle = Some table →
  od_lookup table "pt" = Some pt_obj →
  ∃ new,
    (on_edit_shape handle event (self, log)).1.2 = (log ++ new)%list
    ∧ Forall (fun e => ¬ is_axis_call e) new.
Proof.
  intros Htable Hpt.
  unfold on_edit_shape, call, emit, on_shape, modify, get,
    lift, py_getitem, getattr, od_getitem, mbind, M_bind, mret, M_ret.
  cbv beta iota zeta. rewrite Htable. cbv beta iota zeta. rewrite Hpt.
  split_drag; cbn [fst snd];
    try (exists []; split; [rewrite app_nil_r; reflexivity|constructor]);
    (eexists; split; [rewrite <- ?app_assoc; reflexivity|]);
    repeat constructor; cbn; first [tauto|intros [?|?]; discriminate].
Qed.

(** C10, as the specification states it, fails. The outline of the lens
    is turned by a quarter and moved by 2, so the point [(a, b)] of the
    local frame lies at [(b + 2, -a)]. With the pointer at [(3, 1)], which
    is the local point [(-1, 1)], the ['pt'] handler is called with
    [(1, -1)]. With the pointer outside the axes the drag raises
    [TypeError] and the handler is not called at all. *)
Lemma pt_drag_point_is_not_local :
  ¬ pt_drag_gets_local_point dragged_lens "shape" pointer
  ∧ ¬ pt_drag_gets_local_point dragged_lens "shape" outside.
Proof.
  split.
  - intros (id & a & b & Hin & Hlocal).
    assert (Hlog : (on_edit_shape "shape" pointer (dragged_lens, [])).1.2
                   = [Invoke "pt" "drag" 11 (PtArg (A1 [1; -1]));
                      RefreshGui])
      by (vm_compute; reflexivity).
    rewrite Hlog in Hin.
    apply elem_of_cons in Hin as [Hin|Hin].
    2:{ apply elem_of_cons in Hin as [Hin|Hin]; [discriminate Hin|].
        inversion Hin. }
    injection Hin as _ -> ->.
    destruct (Hlocal unit_square (quarter_turn, Vec3 0 0 2) "polygon" 3 1
                eq_refl eq_refl eq_refl) as [bbox Hglobal].
    apply (f_equal (fun out => match out with
                               | Ok (A2 [[gx; gy]], _) => gx =? 3
                               | _ => false
                               end)) in Hglobal.
    vm_compute in Hglobal. discriminate Hglobal.
  - intros (id & a & b & Hin & _).
    assert (Hlog : (on_edit_shape "shape" outside (dragged_lens, [])).1.2
                   = [])
      by (vm_compute; reflexivity).
    rewrite Hlog in Hin. inversion Hin.
Qed.

(** C10, amended. When the handle has a ['pt'] action object, a drag calls
    no axis-locked handler, whatever the axis lock is, wherever the
    pointer is and however the drag ends. When the drag reaches the
    dispatch (the press and the pointer are inside the axes, the shape has
    a [move_direction] attribute and the handle is rendered), what it does
    is the call of the drag handler of the ['pt'] object, if it has one,
    with the point that [inv_transform_poly] makes of the pointer's data
    position, and the GUI refresh if the handler returns. *)
Theorem pt_drag_takes_precedence self log handle event table pt_obj :
  handle_actions self !! handle = Some table →
  od_lookup table "pt" = Some pt_obj →
  ∃ new,
    (on_edit_shape handle event (self, log)).1.2 = (log ++ new)%list
    ∧ Forall (fun e => ¬ is_axis_call e) new
    ∧ ∀ pixels from x y dir poly tfrm tag,
        select_pt self = Attr (Some (pixels, (Some from.1, Some from.2))) →
        ev_xdata event = Some x → ev_ydata event = Some y →
        move_direction self = Attr dir →
        od_lookup (e_handles (oe_e self)) handle = Some (poly, tfrm, tag) →
        new = pt_drag_effects pt_obj (drag_point tfrm x y).
Proof.
  intros Htable Hpt.
  destruct (pt_drag_calls_no_axis_handler self log handle event table pt_obj
              Htable Hpt) as (new & Hlog & Hnew).
  exists new. split; [exact Hlog|]. split; [exact Hnew|].
  intros pixels from x y dir poly tfrm tag Hpress Hx Hy Hdir Hvalue.
  destruct (pt_drag_dispatch self log handle event table pt_obj pixels from
              x y dir poly tfrm tag Htable Hpt Hpress Hx Hy Hdir Hvalue)
    as (self' & r & Hrun).
  rewrite Hrun in Hlog. cbn [fst snd] in Hlog.
  apply app_inv_head in Hlog. symmetry. exact Hlog.
Qed.

Lemma pt_drag_takes_precedence_witness :
  ∃ new,
    (on_edit_shape "shape" pointer (dragged_lens, [])).1.2 = ([] ++ new)%list
    ∧ Forall (fun e => ¬ is_axis_call e) new
    ∧ new = pt_drag_effects (action_obj bend)
              (drag_point (quarter_turn, Vec3 0 0 2) 3 1).
Proof.
  destruct (pt_drag_takes_precedence dragged_lens [] "shape" pointer
              lens_table (action_obj bend) eq_refl eq_refl)
    as (new & Hlog & Hnew & Hdispatch).
  exists new. split; [exact Hlog|]. split; [exact Hnew|].
  apply (Hdispatch (100, 80) (2, 1) 3 1 (Some "x") unit_square
           (quarter_turn, Vec3 0 0 2) "polygon"); reflexivity.
Defined.

(** Once the lock is set, a drag leaves the shape as it is. *)
Lemma on_edit_shape_locked handle event self log dir :
  move_direction self = Attr (Some dir) →
  ∃ log' r, on_edit_shape handle event (self, log) = ((self, log'), r).
Proof.
  intros Hdir.
  unfold on_edit_shape, call, emit, on_shape, modify, get,
    lift, py_getitem, getattr, od_getitem, mbind, M_bind, mret, M_ret.
  cbv beta iota zeta. rewrite Hdir.
  repeat (cbv beta iota zeta;
          match goal with
          | |- context [match ?x with _ => _ end] =>
              lazymatch x with
              | context [match _ with _ => _ end] => fail
              | _ => destruct x eqn:?
              end
          | |- context [if ?x then _ else _] =>
              lazymatch x with
              | context [match _ with _ => _ end] => fail
              | _ => destruct x eqn:?
              end
          end); eauto.
Qed.

End LayoutFacts.

(** ** Properties of the interactive figure *)

Module InteractiveLayoutFacts.

Import Np Layout InteractiveLayout Cases LayoutFacts.
Local Open Scope float_scope.

(** C8. A dispatch whose event kind is not a key of the target shape's
    action table returns normally and leaves the figure, its shapes and the
    record of calls as they were. *)
Theorem do_action_missing_kind_is_noop
    fig event artist sid handle event_key :
  art_shape artist = Some (sid, handle) →
  event_key ∉ action_keys (shapes fig sid) →
  do_action event (Some artist) event_key fig = (fig, Ok tt).
Proof.
  intros Hshape Hkey. unfold do_action, artist_shape. rewrite Hshape.
  unfold lift. rewrite bind_run.
  unfold except_KeyError_pass, shape_action, get. rewrite bind_run.
  unfold action_keys in Hkey.
  destruct (shapes fig sid) as [oe|rb]; apply not_elem_of_dom in Hkey;
    unfold lift, py_getitem; rewrite bind_run, Hkey; reflexivity.
Qed.

Lemma do_action_missing_kind_is_noop_witness :
  do_action pointer (Some ray_artist) "drag" ray_figure = (ray_figure, Ok tt).
Proof.
  apply (do_action_missing_kind_is_noop ray_figure pointer ray_artist 1%nat "00").
  - reflexivity.
  - apply (bool_decide_unpack _). vm_compute. reflexivity.
Defined.

(** C7, as the specification states it, fails: a press with nothing
    hovered switches [do_scale_bounds] off. *)
Lemma press_without_hover_changes_the_figure :
  ¬ press_changes_nothing idle_figure pointer.
Proof.
  unfold press_changes_nothing. intros H.
  apply (f_equal (fun out => do_scale_bounds (fst out))) in H.
  vm_compute in H. discriminate.
Qed.

(** C7, amended. A press with nothing hovered sets no drag target and
    calls no action; it sets [do_scale_bounds] to [False] and leaves every
    other field of the figure as it was. *)
Theorem press_without_hover fig event :
  hilited_artist fig = None →
  on_press event fig
  = (set_selected_artist None (set_do_scale_bounds false fig), Ok tt).
Proof.
  intros Hnone. unfold on_press, modify, get.
  rewrite !bind_run. cbn. rewrite Hnone. reflexivity.
Qed.

Lemma press_without_hover_witness :
  on_press pointer idle_figure
  = (set_selected_artist None (set_do_scale_bounds false idle_figure), Ok tt).
Proof. apply (press_without_hover idle_figure pointer). reflexivity. Defined.


Lemma only_shapes_differ_refl fig : only_shapes_differ fig fig.
Proof. repeat split. Qed.

Lemma only_shapes_differ_trans f1 f2 f3 :
  only_shapes_differ f1 f2 → only_shapes_differ f2 f3 →
  only_shapes_differ f1 f3.
Proof.
  unfold only_shapes_differ.
  intros (-> & -> & -> & -> & ->) (-> & -> & -> & -> & ->). repeat split.
Qed.

Lemma get_label_ok sid fig :
  ∃ fig' l, get_label sid fig = (fig', Ok l) ∧ only_shapes_differ fig fig'.
Proof.
  unfold get_label. destruct (shapes fig sid) as [oe|rb].
  - unfold oe_get_label. destruct (e_label (oe_e oe));
      eexists _, _; (split; [reflexivity|repeat split]).
  - eexists _, _. split; [reflexivity|repeat split].
Qed.

Lemma label_each_ok artists : ∀ fig,
  Forall (fun a => is_Some (art_shape a)) artists →
  ∃ fig',
    for_each (fun artist =>
                '(sid, handle) ← lift (artist_shape artist);
                _ ← get_label sid;
                mret tt) artists fig = (fig', Ok tt)
    ∧ only_shapes_differ fig fig'.
Proof.
  induction artists as [|a rest IH]; intros fig Hall.
  - exists fig. split; [reflexivity|apply only_shapes_differ_refl].
  - pose proof (Forall_inv Hall) as [[sid handle] Ha]. cbn in Ha.
    cbn [for_each]. rewrite bind_run. unfold lift at 1, artist_shape at 1.
    rewrite bind_run, Ha.
    destruct (get_label_ok sid fig) as (fig1 & l & Hl & H1).
    rewrite bind_run, Hl. cbn [mret M_ret].
    destruct (IH fig1 (Forall_inv_tail Hall)) as (fig2 & H2 & H12).
    exists fig2. split; [exact H2|].
    eapply only_shapes_differ_trans; eauto.
Qed.

Lemma candidates_have_shape event fig :
  Forall (fun a => is_Some (art_shape a)) (candidates event fig).
Proof.
  unfold candidates. induction (ax_children fig) as [|a l IH]; [constructor|].
  rewrite filter_cons. destruct (decide (hit event a = true)) as [Ha|Ha];
    [|exact IH].
  constructor; [|exact IH]. unfold hit in Ha.
  destruct (art_shape a); [eauto|discriminate].
Qed.

Lemma find_artists_at_location_result event fig :
  ∃ fig',
    find_artists_at_location event fig
    = (fig', Ok (sorted_by_zorder_reverse (candidates event fig)))
    ∧ only_shapes_differ fig fig'.
Proof.
  unfold find_artists_at_location, get. rewrite bind_run.
  destruct (label_each_ok (candidates event fig) fig
              (candidates_have_shape event fig)) as (fig' & H & Hsame).
  unfold candidates in H. rewrite bind_run, H.
  exists fig'. split; [reflexivity|exact Hsame].
Qed.

Lemma head_insert_by_zorder a l :
  head (insert_by_zorder a l)
  = match l with
    | [] => Some a
    | b :: _ => if Qlt_le_dec (art_zorder a) (art_zorder b)
                then Some b else Some a
    end.
Proof. destruct l as [|b l']; cbn; [reflexivity|]. destruct (Qlt_le_dec _ _); reflexivity. Qed.

Lemma sorted_head artists :
  match head (sorted_by_zorder_reverse artists) with
  | None => artists = []
  | Some target => topmost_first artists target
  end.
Proof.
  induction artists as [|a rest IH]; [reflexivity|].
  cbn [sorted_by_zorder_reverse foldr].
  fold (sorted_by_zorder_reverse rest). rewrite head_insert_by_zorder.
  destruct (sorted_by_zorder_reverse rest) as [|b sorted'] eqn:Hs; cbn in IH.
  - subst rest. exists [], []. repeat split; constructor.
  - destruct IH as (before & after & -> & Hbefore & Hafter).
    destruct (Qlt_le_dec (art_zorder a) (art_zorder b)) as [Hlt|Hle].
    + exists (a :: before), after. repeat split; [|exact Hafter].
      constructor; assumption.
    + exists [], (before ++ b :: after)%list.
      split; [reflexivity|]. split; [constructor|].
      apply Forall_app. split; [|constructor].
      * revert Hbefore. apply List.Forall_impl. intros x Hx.
        eapply Qle_trans; [apply Qlt_le_weak, Hx|exact Hle].
      * exact Hle.
      * revert Hafter. apply List.Forall_impl. intros x Hx.
        eapply Qle_trans; [exact Hx|exact Hle].
Qed.

Lemma topmost_first_has_shape event fig target :
  topmost_first (candidates event fig) target → is_Some (art_shape target).
Proof.
  intros (before & after & Heq & _).
  pose proof (candidates_have_shape event fig) as Hall. rewrite Heq in Hall.
  apply Forall_app in Hall as [_ Hall]. exact (Forall_inv Hall).
Qed.

(** C4, amended. The hit target has the highest z-order of the artists
    under the pointer; of several with that z-order it is the first in the
    order of the axes' children, the one added earliest. A motion with no
    drag in progress makes it the hovered artist. *)
Theorem hit_target_is_topmost_first fig event :
  ∃ fig' artists,
    find_artists_at_location event fig = (fig', Ok artists)
    ∧ match head artists with
      | None => candidates event fig = []
      | Some target => topmost_first (candidates event fig) target
      end
    ∧ (selected_artist fig = None →
       ∃ fig'', on_motion event fig = (fig'', Ok tt)
                ∧ art_id <$> hilited_artist fig'' = art_id <$> head artists).
Proof.
  destruct (find_artists_at_location_result event fig)
    as (fig1 & Hfind & Hsame).
  pose proof (sorted_head (candidates event fig)) as Hhead.
  eexists _, _. split; [exact Hfind|]. split; [exact Hhead|].
  intros Hsel. unfold on_motion, get. rewrite bind_run, Hsel.
  rewrite bind_run, Hfind, bind_run.
  destruct (same_id _ (hilited_artist fig1)) eqn:Hid; cbn [negb].
  - exists fig1. split; [reflexivity|].
    unfold same_id in Hid. apply bool_decide_eq_true_1 in Hid. symmetry.
    exact Hid.
  - destruct (head (sorted_by_zorder_reverse (candidates event fig)))
      as [target|].
    + destruct (topmost_first_has_shape event fig target Hhead)
        as [[sid handle] Hshape].
      rewrite bind_run.
      assert (HA : ∃ figA,
                 (match hilited_artist fig1 with
                  | Some a => modify (add_effect (Unhighlight (art_id a)));;
                              modify (add_effect CanvasDraw)
                  | None => mret tt
                  end) fig1 = (figA, Ok tt))
        by (destruct (hilited_artist fig1); eexists; reflexivity).
      destruct HA as [figA ->].
      rewrite !bind_run. unfold modify, lift, artist_shape.
      rewrite Hshape, !bind_run.
      match goal with
      | |- context [get_label sid ?f] =>
          destruct (get_label_ok sid f) as (figC & l & Hl & HBC); rewrite Hl
      end.
      exists figC. split; [reflexivity|].
      destruct HBC as (_ & -> & _). reflexivity.
    + rewrite bind_run.
      destruct (hilited_artist fig1); eexists; (split; reflexivity).
Qed.

(** Two artists of z-order 1 and 2 under the pointer: the hit target is
    the one of z-order 2. *)
Lemma hit_test_prefers_higher_zorder :
  match snd (find_artists_at_location pointer stacked_figure) with
  | Ok artists => head artists = Some added_later
  | Raise _ => False
  end
  ∧ art_zorder lower = 1%Q ∧ art_zorder added_later = 2%Q.
Proof. vm_compute. repeat split; reflexivity. Qed.

(** C4, as the specification states it, fails: of two artists of equal
    z-order the hit target is the one added first. *)
Lemma hit_test_tie_goes_to_first_added :
  ¬ hit_target_is_latest tie_figure pointer.
Proof.
  intros H.
  destruct (find_artists_at_location_result pointer tie_figure)
    as (fig' & Hfind & _).
  specialize (H fig' _ first_added Hfind eq_refl).
  destruct H as (before & after & Heq & _ & Hafter).
  change (candidates pointer tie_figure) with [first_added; added_later] in Heq.
  destruct before as [|b before'].
  - injection Heq as <-. apply Forall_inv in Hafter.
    vm_compute in Hafter. discriminate.
  - injection Heq as <- Heq. destruct before' as [|b' before''].
    + unfold first_added, added_later in Heq. discriminate.
    + destruct before''; discriminate.
Qed.

Lemma edit_shape_actions_drag :
  edit_shape_actions !! "drag" = Some on_edit_shape.
Proof. reflexivity. Qed.

Lemma on_motion_keeps_lock event fig artist sid handle dir :
  selected_artist fig = Some artist →
  art_shape artist = Some (sid, handle) →
  locked fig sid dir →
  selected_artist (fst (on_motion event fig)) = Some artist
  ∧ locked (fst (on_motion event fig)) sid dir.
Proof.
  intros Hsel Hshape (oe & Hoe & Hdir).
  destruct (on_edit_shape_locked handle event oe (effects fig) dir Hdir)
    as (log' & r & Hedit).
  unfold on_motion, get. rewrite bind_run, Hsel, bind_run.
  unfold do_action, lift, artist_shape. rewrite Hshape, bind_run.
  unfold except_KeyError_pass, shape_action, get. rewrite bind_run, Hoe.
  unfold lift, py_getitem. rewrite edit_shape_actions_drag, bind_run.
  unfold run_oe. rewrite Hedit.
  set (fig1 := set_shape_effects sid (OE oe) log' fig).
  assert (H1 : selected_artist fig1 = Some artist ∧ locked fig1 sid dir).
  { split; [exact Hsel|]. exists oe. split; [|exact Hdir].
    cbn. apply fn_lookup_insert. }
  assert (Hlabel : selected_artist (fst (get_label sid fig1)) = Some artist
                   ∧ locked (fst (get_label sid fig1)) sid dir
                   ∧ ∃ l, snd (get_label sid fig1) = Ok l).
  { unfold get_label. cbn [fig1 set_shape_effects shapes].
    rewrite fn_lookup_insert. unfold oe_get_label.
    destruct (e_label (oe_e oe)); cbn [fst snd selected_artist].
    - split; [exact Hsel|]. split; [|eauto]. exists oe. split; [|exact Hdir].
      cbn. apply fn_lookup_insert.
    - split; [exact Hsel|]. split; [|eauto]. eexists. split.
      + cbn. apply fn_lookup_insert.
      + exact Hdir. }
  destruct Hlabel as (Hs & Hl & l & Hr).
  destruct (get_label sid fig1) as [fig2 r2] eqn:Hget.
  cbn [fst snd] in Hs, Hl, Hr. subst r2.
  destruct r as [[]|e]; [|destruct e]; cbn [fst];
    rewrite ?bind_run, ?Hget; cbn [fst mret M_ret]; auto.
Qed.

(** C5. Once the drag of the selected shape is locked to an axis, no
    sequence of motion events changes the lock. *)
Theorem drag_lock_is_sticky events : ∀ fig artist sid handle dir,
  selected_artist fig = Some artist →
  art_shape artist = Some (sid, handle) →
  locked fig sid dir →
  locked (drag_through events fig) sid dir.
Proof.
  induction events as [|event rest IH]; intros fig artist sid handle dir
    Hsel Hshape Hlock; [exact Hlock|].
  cbn [drag_through foldl].
  destruct (on_motion_keeps_lock event fig artist sid handle dir
              Hsel Hshape Hlock) as [Hsel' Hlock'].
  exact (IH _ artist sid handle dir Hsel' Hshape Hlock').
Qed.

Lemma drag_lock_is_sticky_witness :
  locked (drag_through upward_motions dragging_figure) 0 "x".
Proof.
  apply (drag_lock_is_sticky upward_motions dragging_figure lens_artist
           0%nat "shape" "x").
  - reflexivity.
  - reflexivity.
  - exists dragged_lens. split; reflexivity.
Defined.

(** A gesture that starts to the right is locked to x by its first motion
    and is still locked to x after a motion that is mostly vertical. *)
Lemma lock_is_set_by_the_first_motion :
  locked (drag_through (take 1 right_then_up) pressed_figure) 0 "x"
  ∧ locked (drag_through right_then_up pressed_figure) 0 "x".
Proof.
  split; eexists; (split; [vm_compute; reflexivity|reflexivity]).
Qed.

End InteractiveLayoutFacts.

(** ** More of the layout: shapes of arrays, the ray bundle, gestures *)

Module LayoutMore.

Import Np Layout InteractiveLayout Cases LayoutFacts InteractiveLayoutFacts.
Local Open Scope float_scope.

(** *** Shapes and errors of the polygon transforms *)

Lemma bbox_from_poly_form n m :
  (0 < n)%nat → has_shape n 2 m →
  ∃ minx miny maxx maxy,
    bbox_from_poly (A2 m) = Ok (A2 [[minx; miny]; [maxx; maxy]]).
Proof.
  intros Hn Hm. unfold bbox_from_poly, min0, max0.
  destruct (reduce_axis0_shape minimum n m Hn Hm) as (x & y & ->).
  destruct (reduce_axis0_shape maximum n m Hn Hm) as (x' & y' & ->).
  cbn. eauto.
Qed.

Lemma transform_poly_bbox tfrm poly poly_gbl bbox :
  transform_poly tfrm poly = Ok (poly_gbl, bbox) →
  bbox_from_poly poly_gbl = Ok bbox.
Proof.
  unfold transform_poly.
  destruct (matmul coord_flip (T poly)) as [p1|]; [|discriminate].
  cbn [mbind result_bind].
  destruct (matmul (sub11 tfrm.1) p1) as [p2|]; [|discriminate].
  cbn [mbind result_bind].
  destruct (iadd (T p2) _) as [p3|]; [|discriminate].
  cbn [mbind result_bind].
  destruct (matmul p3 coord_flip) as [p4|]; [|discriminate].
  cbn [mbind result_bind].
  destruct (bbox_from_poly p4) as [b|] eqn:Hb; [|discriminate].
  cbn. intros [= <- <-]. exact Hb.
Qed.

(** X1. For every transform, [transform_poly] maps a polygon of n >= 1
    points (an n by 2 array) to a polygon of n points, without an
    exception, and the box it returns is a 2 by 2 array, the bounding box
    of the polygon it returns. *)
Theorem transform_poly_keeps_the_shape tfrm n m :
  (0 < n)%nat → has_shape n 2 m →
  ∃ poly_gbl minx miny maxx maxy,
    transform_poly tfrm (A2 m)
    = Ok (A2 poly_gbl, A2 [[minx; miny]; [maxx; maxy]])
    ∧ has_shape n 2 poly_gbl
    ∧ bbox_from_poly (A2 poly_gbl) = Ok (A2 [[minx; miny]; [maxx; maxy]]).
Proof.
  intros Hn Hm.
  destruct (transform_poly_ok tfrm n m Hn Hm) as (g & bbox & Hg & Hshape).
  pose proof (transform_poly_bbox _ _ _ _ Hg) as Hbbox.
  destruct (bbox_from_poly_form n g Hn Hshape) as (a & b & c & d & Hform).
  rewrite Hform in Hbbox. injection Hbbox as <-.
  exists g, a, b, c, d. auto.
Qed.

Lemma transform_poly_keeps_the_shape_witness :
  ∃ poly_gbl minx miny maxx maxy,
    transform_poly (quarter_turn, Vec3 0 1 2) (A2 unit_square)
    = Ok (A2 poly_gbl, A2 [[minx; miny]; [maxx; maxy]])
    ∧ has_shape 4 2 poly_gbl
    ∧ bbox_from_poly (A2 poly_gbl) = Ok (A2 [[minx; miny]; [maxx; maxy]]).
Proof.
  apply (transform_poly_keeps_the_shape (quarter_turn, Vec3 0 1 2) 4
           unit_square).
  - lia.
  - split; [reflexivity|repeat constructor].
Defined.

(** X2. [transform_poly] has no result for an empty polygon, nor for a
    single point given as a 1-d array: [np.array([])] is rejected by the
    first matrix product with [ValueError], and a 1-d point passes the
    products and fails in [bbox_from_poly] with [TypeError]. *)
Theorem transform_poly_rejects_empty_and_1d tfrm :
  transform_poly tfrm (array []) = Raise ValueError
  ∧ ∀ x y, transform_poly tfrm (A1 [x; y]) = Raise TypeError.
Proof. split; [reflexivity|]. intros x y. reflexivity. Qed.

(** X3. [inv_transform_poly] returns a point for a point (a 1-d array of
    two numbers), for every transform. Of the polygons (n by 2 arrays,
    n >= 1), it accepts those of exactly two points and raises
    [ValueError] for all others. *)
Theorem inv_transform_poly_shapes tfrm :
  (∀ x y, ∃ a b, inv_transform_poly tfrm (A1 [x; y]) = Ok (A1 [a; b]))
  ∧ ∀ n m, (0 < n)%nat → has_shape n 2 m →
      if Nat.eqb n 2
      then ∃ g, inv_transform_poly tfrm (A2 m) = Ok (A2 g) ∧ has_shape 2 2 g
      else inv_transform_poly tfrm (A2 m) = Raise ValueError.
Proof.
  split; [intros x y; eexists _, _; reflexivity|].
  intros n m Hn Hm.
  unfold inv_transform_poly, coord_flip, sub11, isub, inplace. cbn [T].
  assert (Hflip : has_shape 2 2 [[0; 1]; [1; 0]])
    by (split; [reflexivity|repeat constructor]).
  destruct (matmul_shape 2 2 n [[0; 1]; [1; 0]] (transpose m))
    as (p1 & -> & Hp1); [lia|exact Hflip|apply transpose_shape; auto|].
  cbn [mbind result_bind].
  destruct (Nat.eqb n 2) eqn:Hn2.
  - apply Nat.eqb_eq in Hn2. subst n.
    destruct (broadcast_rows_shape PrimFloat.sub 2 2 p1
                [c1 tfrm.2; c2 tfrm.2]) as (p2 & -> & Hp2);
      [reflexivity|exact Hp1|].
    cbn [mbind result_bind].
    destruct (matmul_shape 2 2 2
                [[c1 (r1 tfrm.1); c2 (r1 tfrm.1)];
                 [c1 (r2 tfrm.1); c2 (r2 tfrm.1)]] p2)
      as (p3 & -> & Hp3);
      [lia|split; [reflexivity|repeat constructor]|exact Hp2|].
    cbn [mbind result_bind T].
    destruct (matmul_shape 2 2 2 (transpose p3) [[0; 1]; [1; 0]])
      as (p4 & -> & Hp4);
      [lia|apply transpose_shape; auto; lia|exact Hflip|].
    eauto.
  - destruct Hp1 as [Hl Hrows].
    destruct p1 as [|row p1']; [discriminate|].
    pose proof (Forall_inv Hrows) as Hrow. cbn in Hrow.
    cbn [broadcast_rows]. unfold broadcast_row. cbn [length].
    rewrite Hrow, (Nat.eqb_sym 2 n), Hn2. reflexivity.
Qed.

(** X4. The bounding box of a single point is that point twice; an empty
    array has no bounding box ([ValueError]), and neither has a 1-d
    array. *)
Theorem bbox_from_poly_edges :
  (∀ x y, bbox_from_poly (A2 [[x; y]]) = Ok (A2 [[x; y]; [x; y]]))
  ∧ bbox_from_poly (array []) = Raise ValueError
  ∧ bbox_from_poly (A2 []) = Raise ValueError
  ∧ ∀ x v, bbox_from_poly (A1 (x :: v)) = Raise TypeError.
Proof. repeat split. Qed.

(** *** The loop of [shift_start_of_ray_bundle] *)

Section ShiftLoop.

Variables (rot : mat3) (t : vec3).

Lemma shift_ray_stores ri r start_bundle :
  (2 ≤ length (ray r))%nat →
  (ri < length start_bundle)%nat →
  ∃ s, shift_ray ri r start_bundle rot t = Ok (<[ri := s]> start_bundle)
       ∧ shifted_start rot t r s.
Proof.
  intros Hr Hlen. unfold shift_ray, py_index, py_setitem, shifted_start,
    b4_pt_of, b4_dir_of.
  destruct (ray r) as [|seg0 [|seg1 more]]; cbn in Hr; try lia. cbn.
  destruct start_bundle as [|chief rest]; cbn in Hlen; try lia.
  destruct (Nat.eqb ri 0); cbn;
    rewrite bool_decide_eq_true_2 by (cbn; lia);
    (eexists; split; [reflexivity|]); cbn; auto.
Qed.

Lemma shift_loop_stores ray_bundle : ∀ ri start_bundle,
  Forall (fun r => (2 ≤ length (ray r))%nat) ray_bundle →
  (ri + length ray_bundle ≤ length start_bundle)%nat →
  ∃ start_bundle',
    shift_loop ri ray_bundle start_bundle rot t = Ok start_bundle'
    ∧ length start_bundle' = length start_bundle
    ∧ (∀ j, (j < ri)%nat → start_bundle' !! j = start_bundle !! j)
    ∧ ∀ i r, ray_bundle !! i = Some r →
        ∃ s, start_bundle' !! (ri + i)%nat = Some s ∧ shifted_start rot t r s.
Proof.
  induction ray_bundle as [|r rest IH]; intros ri sb Hall Hlen.
  - exists sb. cbn. repeat split; auto. intros i r H. discriminate.
  - pose proof (Forall_inv Hall) as Hr. cbn in Hr.
    pose proof (Forall_inv_tail Hall) as Hrest. cbn in Hlen.
    destruct (shift_ray_stores ri r sb Hr) as (s & Hs & Hshift); [lia|].
    destruct (IH (S ri) (<[ri:=s]> sb) Hrest)
      as (sb' & Hsb' & Hl & Hj & Hi).
    { rewrite length_insert. lia. }
    exists sb'. cbn. rewrite Hs. cbn. rewrite Hsb'.
    split; [reflexivity|]. split; [rewrite Hl; apply length_insert|].
    split.
    + intros j Hlt. rewrite Hj by lia. apply list_lookup_insert_ne. lia.
    + intros [|i] r' Hr'.
      * injection Hr' as <-. exists s. split; [|exact Hshift].
        rewrite Nat.add_0_r, Hj by lia. apply list_lookup_insert_eq. lia.
      * cbn in Hr'. destruct (Hi i r' Hr') as (s' & Hs' & Hshift').
        exists s'. split; [|exact Hshift'].
        rewrite <- Hs'. f_equal. lia.
Qed.

Lemma shift_ray_raises_IndexError ri r start_bundle e :
  shift_ray ri r start_bundle rot t = Raise e → e = IndexError.
Proof.
  unfold shift_ray, py_index, py_setitem.
  destruct (ray r !! 1%nat); [|cbn; congruence].
  destruct (ray r !! 0%nat); [|cbn; congruence]. cbn.
  destruct (Nat.eqb ri 0); cbn.
  - destruct (bool_decide _); congruence.
  - destruct (start_bundle !! 0%nat); cbn; [|congruence].
    destruct (bool_decide _); congruence.
Qed.

Lemma shift_loop_raises_IndexError ray_bundle : ∀ ri start_bundle e,
  shift_loop ri ray_bundle start_bundle rot t = Raise e → e = IndexError.
Proof.
  induction ray_bundle as [|r rest IH]; intros ri sb e; [discriminate|].
  cbn. destruct (shift_ray ri r sb rot t) as [sb'|e'] eqn:Hr; cbn.
  - apply IH.
  - intros [= <-]. eapply shift_ray_raises_IndexError, Hr.
Qed.

Lemma shift_loop_short_ray ray_bundle : ∀ ri start_bundle,
  Exists (fun r => (length (ray r) < 2)%nat) ray_bundle →
  shift_loop ri ray_bundle start_bundle rot t = Raise IndexError.
Proof.
  induction ray_bundle as [|r rest IH]; intros ri sb Hex;
    [inversion Hex|].
  cbn. destruct (shift_ray ri r sb rot t) as [sb'|e] eqn:Hr; cbn.
  - apply Exists_cons in Hex as [Hshort|Hex]; [|apply IH, Hex].
    exfalso. unfold shift_ray, py_index in Hr.
    destruct (ray r) as [|seg0 [|seg1 more]]; cbn in Hshort, Hr;
      try discriminate. lia.
  - f_equal. eapply shift_ray_raises_IndexError, Hr.
Qed.

End ShiftLoop.

(** X5. When every ray of the bundle has at least two segments and
    [start_bundle] has one entry per ray, [shift_start_of_ray_bundle]
    raises nothing and replaces every entry: the new start segment of each
    ray has the ray's transformed direction and the normal of its first
    segment, and its point lies on the transformed ray, [dst] along it from
    the transformed first-surface point. *)
Theorem shift_start_replaces_every_start rot t start_bundle ray_bundle :
  Forall (fun r => (2 ≤ length (ray r))%nat) ray_bundle →
  length start_bundle = length ray_bundle →
  ∃ start_bundle',
    shift_start_of_ray_bundle start_bundle ray_bundle rot t = Ok start_bundle'
    ∧ length start_bundle' = length ray_bundle
    ∧ ∀ i r, ray_bundle !! i = Some r →
        ∃ s, start_bundle' !! i = Some s ∧ shifted_start rot t r s.
Proof.
  intros Hall Hlen.
  destruct (shift_loop_stores rot t ray_bundle 0 start_bundle Hall)
    as (sb' & Hsb' & Hl & _ & Hi); [lia|].
  exists sb'. split; [exact Hsb'|]. split; [lia|exact Hi].
Qed.

Lemma shift_start_replaces_every_start_witness :
  ∃ start_bundle',
    shift_start_of_ray_bundle three_starts three_rays identity (Vec3 0 0 10)
    = Ok start_bundle'
    ∧ length start_bundle' = length three_rays
    ∧ ∀ i r, three_rays !! i = Some r →
        ∃ s, start_bundle' !! i = Some s
             ∧ shifted_start identity (Vec3 0 0 10) r s.
Proof.
  apply (shift_start_replaces_every_start identity (Vec3 0 0 10)
           three_starts three_rays).
  - repeat constructor.
  - reflexivity.
Defined.

(** X6. [shift_start_of_ray_bundle] raises [IndexError] as soon as one ray
    of the bundle has fewer than two segments, and [IndexError] is the only
    exception it ever raises: a division by zero yields inf or NaN and goes
    on. *)
Theorem shift_start_raises_only_IndexError rot t start_bundle ray_bundle :
  (Exists (fun r => (length (ray r) < 2)%nat) ray_bundle →
   shift_start_of_ray_bundle start_bundle ray_bundle rot t
   = Raise IndexError)
  ∧ ∀ e, shift_start_of_ray_bundle start_bundle ray_bundle rot t = Raise e →
      e = IndexError.
Proof.
  split.
  - apply shift_loop_short_ray.
  - intros e. apply shift_loop_raises_IndexError.
Qed.

(** *** [RayBundle.update_shape], step by step *)

Lemma rb_update_shape_steps rt w traced self sm :
  rb_update_shape rt w traced (self, sm)
  = let self0 := set_rayset traced (set_wvl w self) in
    match py_index (gbl_tfrms sm) 0 with
    | Raise e => ((self0, sm), Raise e)
    | Ok tfrtm0 =>
        match mapM (fun r => py_index (ray r) 0) (od_values traced) with
        | Raise e => ((self0, sm), Raise e)
        | Ok start_bundle =>
            match shift_if_far rt self0 sm tfrtm0 traced start_bundle
                    (self0, sm) with
            | (s1, Raise e) => (s1, Raise e)
            | (s1, Ok start_bundle') =>
                render_and_publish [254; 197; 254; 64] tfrtm0 traced
                                   start_bundle' s1
            end
        end
    end.
Proof.
  unfold rb_update_shape, on_self, modify, get, lift.
  rewrite !bind_run. cbn -[render_and_publish shift_if_far].
  destruct (py_index (gbl_tfrms sm) 0); [|reflexivity].
  cbn -[render_and_publish shift_if_far].
  destruct (mapM _ _); reflexivity.
Qed.

Lemma mapM_cons_steps {A B} (f : A → result B) (x : A) (l : list A) :
  mapM f (x :: l)
  = match f x with
    | Ok y => match mapM f l with
              | Ok k => Ok (y :: k)
              | Raise e => Raise e
              end
    | Raise e => Raise e
    end.
Proof. cbn. destruct (f x); [|reflexivity]. cbn. destruct (mapM f l); reflexivity. Qed.

Lemma start_bundle_length rays : ∀ start_bundle,
  mapM (fun r => py_index (ray r) 0) rays = Ok start_bundle →
  length start_bundle = length rays.
Proof.
  induction rays as [|r rest IH]; intros sb.
  - intros [= <-]. reflexivity.
  - rewrite mapM_cons_steps.
    destruct (py_index (ray r) 0); [|discriminate].
    destruct (mapM _ rest) as [sb'|]; [|discriminate].
    intros [= <-]. cbn. rewrite (IH sb' eq_refl). reflexivity.
Qed.

Lemma start_bundle_ok rays :
  Forall (fun r => (2 ≤ length (ray r))%nat) rays →
  ∃ start_bundle, mapM (fun r => py_index (ray r) 0) rays = Ok start_bundle.
Proof.
  induction 1 as [|r rest Hr _ [sb IH]]; [exists []; reflexivity|].
  rewrite mapM_cons_steps, IH. unfold py_index.
  destruct (ray r) as [|seg0 more]; [cbn in Hr; lia|]. cbn. eauto.
Qed.

(** The shift of [update_shape], when no ray is too short: a bundle of the
    same length, and at most slot 0 of the transforms changed. *)
Lemma shift_if_far_ok rt self sm tfrtm0 traced start_bundle :
  Forall (fun r => (2 ≤ length (ray r))%nat) (od_values traced) →
  length start_bundle = length (od_values traced) →
  (0 < length (gbl_tfrms sm))%nat →
  (∃ e, shift_if_far rt self sm tfrtm0 traced start_bundle (self, sm)
        = ((self, sm), Raise e))
  ∨ ∃ tfrm start_bundle',
      shift_if_far rt self sm tfrtm0 traced start_bundle (self, sm)
      = ((self, set_gbl_tfrms (<[0%nat:=tfrm]> (gbl_tfrms sm)) sm),
         Ok start_bundle')
      ∧ length start_bundle' = length start_bundle
      ∧ (setup_shift_of_ray_bundle rt sm (start_offset self) = Ok tfrm
         ∨ gbl_tfrms sm !! 0%nat = Some tfrm).
Proof.
  intros Hrays Hlen Htf. unfold shift_if_far.
  destruct (_ <? _).
  - unfold lift. rewrite bind_run.
    destruct (setup_shift_of_ray_bundle _ _ _) as [[rot t]|e] eqn:Hsetup;
      [|left; eauto].
    destruct (shift_loop_stores rot t (od_values traced) 0 start_bundle
                Hrays) as (sb' & Hsb' & Hl & _); [lia|].
    fold (shift_start_of_ray_bundle start_bundle (od_values traced) rot t)
      in Hsb'.
    right. exists (rot, t), sb'. split; [|split; [lia|auto]].
    rewrite !bind_run. unfold set_tfrm0, py_setitem.
    rewrite bool_decide_eq_true_2 by lia. cbv beta iota. rewrite Hsb'.
    reflexivity.
  - right. destruct (gbl_tfrms sm) as [|tfrm0 rest] eqn:Htfrms;
      [cbn in Htf; lia|].
    exists tfrm0, start_bundle. cbn. split; [|auto].
    destruct sm as [tfrms i g]. cbn in *. subst tfrms. reflexivity.
Qed.

(** X7. When every traced ray has at least two segments, the model's list
    of transforms is the same after [update_shape] as before it, whether
    [update_shape] returns or raises, and whatever fails while the shape
    is rendered. *)
Theorem update_shape_restores_tfrms rt w traced self sm :
  Forall (fun r => (2 ≤ length (ray r))%nat) (od_values traced) →
  gbl_tfrms (snd (fst (rb_update_shape rt w traced (self, sm))))
  = gbl_tfrms sm.
Proof.
  intros Hrays. rewrite rb_update_shape_steps. cbv zeta.
  destruct (py_index (gbl_tfrms sm) 0) as [tfrtm0|e] eqn:H0; [|reflexivity].
  apply py_index_Ok in H0.
  assert (Hlen : (0 < length (gbl_tfrms sm))%nat)
    by (eapply lookup_lt_Some, H0).
  destruct (mapM _ _) as [sb|e] eqn:Hsb; [|reflexivity].
  apply start_bundle_length in Hsb.
  destruct (shift_if_far_ok rt (set_rayset traced (set_wvl w self)) sm
              tfrtm0 traced sb Hrays Hsb Hlen)
    as [[e ->]|(tfrm & sb' & -> & _ & _)]; [reflexivity|].
  edestruct (render_and_publish_restores [254; 197; 254; 64] tfrtm0 traced
               sb') as (self1 & r1 & ->).
  { cbn. rewrite length_insert. exact Hlen. }
  cbn. rewrite list_insert_insert_eq. apply list_insert_id, H0.
Qed.

Lemma update_shape_restores_tfrms_witness :
  gbl_tfrms (snd (fst (rb_update_shape reverse_transform0 0.5
                         [("00", full_ray 0)] (bundle0, seq_model0))))
  = gbl_tfrms seq_model0.
Proof.
  apply (update_shape_restores_tfrms reverse_transform0 0.5
           [("00", full_ray 0)] bundle0 seq_model0).
  repeat constructor.
Defined.

(** *** Rendering the rays *)

Lemma render_segs_ok tfrms segs : ∀ poly i,
  (i + length segs ≤ length tfrms)%nat →
  ∃ poly',
    render_segs poly i segs tfrms = Ok poly'
    ∧ length poly' = (length poly + length segs)%nat
    ∧ (Forall (fun row => length row = 2%nat) poly →
       Forall (fun row => length row = 2%nat) poly').
Proof.
  induction segs as [|r rest IH]; intros poly i Hlen.
  - exists poly. cbn. split; [reflexivity|]. split; [lia|auto].
  - cbn in Hlen. cbn [render_segs]. unfold py_index.
    destruct (lookup_lt_is_Some_2 tfrms i) as [[rot trns] ->]; [lia|].
    cbn [mbind result_bind].
    destruct (IH (transform_ray_seg poly r (rot, trns)) (S i))
      as (poly' & -> & Hl & Hrows); [lia|].
    exists poly'. split; [reflexivity|]. split.
    + rewrite Hl. cbn. rewrite length_app. cbn. lia.
    + intros Hpoly. apply Hrows. cbn. apply Forall_app. split; [exact Hpoly|].
      repeat constructor.
Qed.

Lemma render_ray_ok tfrms ray start_seg :
  (0 < length tfrms)%nat → (length ray ≤ length tfrms)%nat →
  ∃ n m, render_ray ray start_seg tfrms = Ok (A2 m)
         ∧ (0 < n)%nat ∧ has_shape n 2 m.
Proof.
  intros Htf Hlen. unfold render_ray, py_index.
  destruct (lookup_lt_is_Some_2 tfrms 0) as [[rot trns] ->]; [lia|].
  cbn [mbind result_bind].
  destruct (render_segs_ok tfrms (drop 1 ray)
              (transform_ray_seg [] start_seg (rot, trns)) 1)
    as (poly & -> & Hl & Hrows).
  { rewrite length_drop. lia. }
  cbn [mbind result_bind]. cbn in Hl.
  destruct poly as [|row poly']; [cbn in Hl; lia|].
  exists (length (row :: poly')), (row :: poly'). cbn [array].
  split; [reflexivity|]. split; [cbn; lia|].
  split; [reflexivity|]. apply Hrows. cbn. repeat constructor.
Qed.

Lemma render_shape_ok tfrms rayset start_bundle upper lower :
  (0 < length tfrms)%nat → (5 ≤ length start_bundle)%nat →
  od_lookup rayset "+Y" = Some upper → od_lookup rayset "-Y" = Some lower →
  (length (ray upper) ≤ length tfrms)%nat →
  (length (ray lower) ≤ length tfrms)%nat →
  ∃ poly bbox, render_shape rayset start_bundle tfrms = Ok (poly, bbox).
Proof.
  intros Htf Hsb Hup Hlo Hlu Hll. unfold render_shape, py_index, od_getitem.
  destruct (lookup_lt_is_Some_2 start_bundle 3) as [seg3 ->]; [lia|].
  destruct (lookup_lt_is_Some_2 start_bundle 4) as [seg4 ->]; [lia|].
  destruct (lookup_lt_is_Some_2 tfrms 0) as [[rot trns] ->]; [lia|].
  rewrite Hup, Hlo. cbn [mbind result_bind].
  destruct (render_segs_ok tfrms (drop 1 (ray upper))
              (transform_ray_seg [] seg3 (rot, trns)) 1)
    as (poly1 & -> & Hl1 & Hrows1); [rewrite length_drop; lia|].
  cbn [mbind result_bind].
  destruct (render_segs_ok tfrms (drop 1 (ray lower))
              (transform_ray_seg [] seg4 (rot, trns)) 1)
    as (poly2 & -> & Hl2 & Hrows2); [rewrite length_drop; lia|].
  cbn [mbind result_bind]. cbn in Hl1, Hl2.
  destruct poly1 as [|row poly1']; [cbn in Hl1; lia|].
  cbn [app array].
  destruct (bbox_from_poly_ok (length (row :: poly1' ++ reverse poly2))
              (row :: poly1' ++ reverse poly2)) as [bbox ->];
    [cbn; lia| |cbn; eauto].
  split; [reflexivity|].
  change (row :: poly1' ++ reverse poly2)
    with ((row :: poly1') ++ reverse poly2)%list.
  apply Forall_app. split.
  - apply Hrows1. cbn. repeat constructor.
  - apply Forall_reverse, Hrows2. cbn. repeat constructor.
Qed.

Lemma od_lookup_values {A} (d : odict A) key a :
  od_lookup d key = Some a → a ∈ od_values d.
Proof.
  induction d as [|[k' a'] d' IH]; [discriminate|]. cbn.
  destruct (String.eqb k' key).
  - intros [= ->]. apply list_elem_of_here.
  - intros H. apply list_elem_of_further, IH, H.
Qed.

Lemma render_all_ok tfrms rayset start_bundle r00 upper lower :
  (0 < length tfrms)%nat → (5 ≤ length start_bundle)%nat →
  od_lookup rayset "00" = Some r00 →
  od_lookup rayset "+Y" = Some upper → od_lookup rayset "-Y" = Some lower →
  (length (ray r00) ≤ length tfrms)%nat →
  (length (ray upper) ≤ length tfrms)%nat →
  (length (ray lower) ≤ length tfrms)%nat →
  ∃ poly bbox nc mc nu mu nl ml,
    render_all rayset start_bundle tfrms
    = Ok (poly, bbox, A2 mc, A2 mu, A2 ml)
    ∧ ((0 < nc)%nat ∧ has_shape nc 2 mc)
    ∧ ((0 < nu)%nat ∧ has_shape nu 2 mu)
    ∧ ((0 < nl)%nat ∧ has_shape nl 2 ml).
Proof.
  intros Htf Hsb H00 Hup Hlo Hl0 Hlu Hll. unfold render_all.
  destruct (render_shape_ok tfrms rayset start_bundle upper lower)
    as (poly & bbox & ->); auto.
  cbn [mbind result_bind]. unfold od_getitem, py_index.
  rewrite H00, Hup, Hlo.
  destruct (lookup_lt_is_Some_2 start_bundle 0) as [seg0 ->]; [lia|].
  destruct (lookup_lt_is_Some_2 start_bundle 3) as [seg3 ->]; [lia|].
  destruct (lookup_lt_is_Some_2 start_bundle 4) as [seg4 ->]; [lia|].
  cbn [mbind result_bind].
  destruct (render_ray_ok tfrms (ray r00) seg0 Htf Hl0)
    as (nc & mc & -> & Hc).
  cbn [mbind result_bind].
  destruct (render_ray_ok tfrms (ray upper) seg3 Htf Hlu)
    as (nu & mu & -> & Hu).
  cbn [mbind result_bind].
  destruct (render_ray_ok tfrms (ray lower) seg4 Htf Hll)
    as (nl & ml & -> & Hlw).
  cbn [mbind result_bind].
  exists poly, bbox, nc, mc, nu, mu, nl, ml. auto.
Qed.

Lemma set_handles_ok clr poly bbox nc mc nu mu nl ml self sm :
  (0 < nc)%nat → has_shape nc 2 mc →
  (0 < nu)%nat → has_shape nu 2 mu →
  (0 < nl)%nat → has_shape nl 2 ml →
  ∃ shape chief upper lower,
    let self' := set_rb_handle "-Y" lower
                   (set_rb_handle "+Y" upper
                      (set_rb_handle "00" chief
                         (set_rb_handle "shape" shape self))) in
    set_handles clr poly bbox (A2 mc) (A2 mu) (A2 ml) (self, sm)
    = ((self', sm), Ok (rb_handles self')).
Proof.
  intros Hnc Hc Hnu Hu Hnl Hl.
  destruct (create_polyline_ok nc mc Hnc Hc) as [pc Hpc].
  destruct (create_polyline_ok nu mu Hnu Hu) as [pu Hpu].
  destruct (create_polyline_ok nl ml Hnl Hl) as [pl Hpl].
  destruct (bbox_from_poly_ok nc mc Hnc Hc) as [bc Hbc].
  destruct (bbox_from_poly_ok nu mu Hnu Hu) as [bu Hbu].
  destruct (bbox_from_poly_ok nl ml Hnl Hl) as [bl Hbl].
  unfold set_handles, on_self, modify, get, lift, mbind, M_bind, mret, M_ret.
  cbn [create_polygon]. cbv beta iota zeta.
  rewrite Hpc, Hbc, Hpu, Hbu, Hpl, Hbl.
  eexists _, _, _, _. reflexivity.
Qed.

Lemma setup_shift_ok rt sm start_offset :
  (2 ≤ length (ifcs sm))%nat → (1 ≤ length (gap_media sm))%nat →
  ∃ tfrm, setup_shift_of_ray_bundle rt sm start_offset = Ok tfrm.
Proof.
  intros Hi Hg. unfold setup_shift_of_ray_bundle, py_index.
  destruct (lookup_lt_is_Some_2 (ifcs sm) 1) as [s1 ->]; [lia|].
  destruct (lookup_lt_is_Some_2 (ifcs sm) 0) as [s0 ->]; [lia|].
  destruct (lookup_lt_is_Some_2 (gap_media sm) 0) as [g ->]; [lia|].
  cbn. eauto.
Qed.

(** X8. On a model with at least two interfaces and one gap, and for
    traced boundary rays that are at least five, include the chief ray and
    the two Y marginal rays under their keys, and have between two segments
    and one per transform each, [update_shape] returns: it stores the
    wavelength and the rays, puts entries under [shape], [00], [+Y] and
    [-Y] into the bundle's mapping, leaves its other entries and the
    sequential model as they were, and returns the mapping. *)
Theorem update_shape_returns_four_handles
    rt w traced self sm r00 upper lower :
  (2 ≤ length (ifcs sm))%nat → (1 ≤ length (gap_media sm))%nat →
  (5 ≤ length traced)%nat →
  od_lookup traced "00" = Some r00 →
  od_lookup traced "+Y" = Some upper →
  od_lookup traced "-Y" = Some lower →
  Forall (fun r => (2 ≤ length (ray r) ≤ length (gbl_tfrms sm))%nat)
         (od_values traced) →
  ∃ self' res,
    rb_update_shape rt w traced (self, sm) = ((self', sm), Ok res)
    ∧ rb_handles self' = res
    ∧ wvl self' = w ∧ rayset self' = Attr traced
    ∧ is_Some (res !! "shape") ∧ is_Some (res !! "00")
    ∧ is_Some (res !! "+Y") ∧ is_Some (res !! "-Y")
    ∧ ∀ key, key ≠ "shape" → key ≠ "00" → key ≠ "+Y" → key ≠ "-Y" →
        res !! key = rb_handles self !! key.
Proof.
  intros Hifcs Hgaps H5 H00 Hup Hlo Hrays.
  assert (Hbound : ∀ r, r ∈ od_values traced →
            (2 ≤ length (ray r) ≤ length (gbl_tfrms sm))%nat).
  { intros r Hr. rewrite list.Forall_forall in Hrays. apply Hrays, Hr. }
  pose proof (Hbound _ (od_lookup_values _ _ _ H00)) as Hb0.
  pose proof (Hbound _ (od_lookup_values _ _ _ Hup)) as Hbu.
  pose proof (Hbound _ (od_lookup_values _ _ _ Hlo)) as Hbl.
  assert (Hrays2 : Forall (fun r => (2 ≤ length (ray r))%nat)
                          (od_values traced)).
  { revert Hrays. apply List.Forall_impl. intros r. lia. }
  assert (Htf : (0 < length (gbl_tfrms sm))%nat) by lia.
  rewrite rb_update_shape_steps. cbv zeta.
  unfold py_index at 1.
  destruct (lookup_lt_is_Some_2 (gbl_tfrms sm) 0 Htf) as [tfrtm0 H0].
  rewrite H0.
  destruct (start_bundle_ok _ Hrays2) as [sb Hsb]. rewrite Hsb.
  apply start_bundle_length in Hsb.
  set (self0 := set_rayset traced (set_wvl w self)).
  destruct (setup_shift_ok rt sm (start_offset self0) Hifcs Hgaps)
    as [tfrm0 Hsetup].
  destruct (shift_if_far_ok rt self0 sm tfrtm0 traced sb Hrays2 Hsb Htf)
    as [[e He]|(tfrm & sb' & -> & Hlen' & _)].
  { exfalso. unfold shift_if_far in He.
    destruct (_ <? _); [|discriminate].
    unfold lift in He. rewrite bind_run, Hsetup in He.
    destruct tfrm0 as [rot t]. rewrite bind_run in He.
    unfold set_tfrm0, py_setitem in He.
    rewrite bool_decide_eq_true_2 in He by lia. cbv beta iota in He.
    destruct (shift_loop_stores rot t (od_values traced) 0 sb Hrays2)
      as (sb' & Hsb' & _); [lia|].
    unfold shift_start_of_ray_bundle in He. rewrite Hsb' in He.
    discriminate. }
  unfold render_and_publish. rewrite bind_run.
  unfold try_finally, get, lift. rewrite bind_run.
  cbn [gbl_tfrms set_gbl_tfrms].
  assert (Hsb5 : (5 ≤ length sb')%nat).
  { rewrite Hlen', Hsb. unfold od_values. rewrite length_map. exact H5. }
  destruct (render_all_ok (<[0%nat:=tfrm]> (gbl_tfrms sm)) traced sb'
              r00 upper lower)
    as (poly & bbox & nc & mc & nu & mu & nl & ml & -> & Hc & Hu & Hl);
    rewrite ?length_insert; auto; try lia.
  unfold set_tfrm0, py_setitem. cbn [gbl_tfrms set_gbl_tfrms].
  rewrite bool_decide_eq_true_2 by (rewrite length_insert; lia).
  rewrite list_insert_insert_eq, (list_insert_id _ _ _ H0).
  replace (set_gbl_tfrms (gbl_tfrms sm)
             (set_gbl_tfrms (<[0%nat:=tfrm]> (gbl_tfrms sm)) sm)) with sm
    by (destruct sm; reflexivity).
  destruct Hc as [Hnc Hc], Hu as [Hnu Hu], Hl as [Hnl Hl].
  destruct (set_handles_ok [254; 197; 254; 64] poly bbox nc mc nu mu nl ml
              self0 sm Hnc Hc Hnu Hu Hnl Hl)
    as (e1 & e2 & e3 & e4 & Hset).
  cbv zeta in Hset. rewrite Hset.
  eexists _, _. split; [reflexivity|]. cbn.
  repeat split; try (eexists; simplify_map_eq; reflexivity).
  intros key H1 H2 H3 H4. simplify_map_eq. reflexivity.
Qed.

Lemma update_shape_returns_four_handles_witness :
  ∃ self' res,
    rb_update_shape reverse_transform0 0.5 full_rayset (bundle0, seq_model0)
    = ((self', seq_model0), Ok res)
    ∧ rb_handles self' = res
    ∧ wvl self' = 0.5 ∧ rayset self' = Attr full_rayset
    ∧ is_Some (res !! "shape") ∧ is_Some (res !! "00")
    ∧ is_Some (res !! "+Y") ∧ is_Some (res !! "-Y")
    ∧ ∀ key, key ≠ "shape" → key ≠ "00" → key ≠ "+Y" → key ≠ "-Y" →
        res !! key = rb_handles bundle0 !! key.
Proof.
  apply (update_shape_returns_four_handles reverse_transform0 0.5 full_rayset
           bundle0 seq_model0 (full_ray 0) (full_ray 1) (full_ray (-1)));
    try reflexivity; try (cbn; lia).
  repeat constructor.
Defined.

(** *** [OpticalElement.update_shape], again *)

Lemma update_handles_entries rc items : ∀ handles,
  update_handles rc items handles
  = (store_all (rebuilt_entries rc items).1 handles,
     (rebuilt_entries rc items).2).
Proof.
  induction items as [|[key [[value0 value1] value2]] rest IH];
    intros handles; [reflexivity|].
  cbn [update_handles rebuilt_entries].
  destruct (transform_poly value1 (array value0)) as [[g bbox]|e];
    [|reflexivity].
  destruct (String.eqb value2 "polygon").
  - cbn [create_polygon]. rewrite IH.
    destruct (rebuilt_entries rc rest). reflexivity.
  - destruct (String.eqb value2 "polyline"); [|reflexivity].
    destruct (create_polyline g); [|reflexivity].
    rewrite IH. destruct (rebuilt_entries rc rest). reflexivity.
Qed.

Lemma store_all_cons k v entries (handles : handle_map) :
  store_all ((k, v) :: entries) handles
  = store_all entries (<[k:=v]> handles).
Proof. reflexivity. Qed.

Lemma store_all_other entries : ∀ (handles : handle_map) key,
  key ∉ map fst entries → store_all entries handles !! key = handles !! key.
Proof.
  induction entries as [|[k v] rest IH]; intros h key Hkey; [reflexivity|].
  cbn in Hkey. apply not_elem_of_cons in Hkey as [Hne Hkey].
  rewrite store_all_cons, (IH _ key Hkey). apply lookup_insert_ne. congruence.
Qed.

Lemma store_all_agree entries : ∀ (h1 h2 : handle_map),
  (∀ key, key ∉ map fst entries → h1 !! key = h2 !! key) →
  store_all entries h1 = store_all entries h2.
Proof.
  induction entries as [|[k v] rest IH]; intros h1 h2 Hagree.
  - apply map_eq. intros key. apply Hagree. cbn. apply not_elem_of_nil.
  - rewrite !store_all_cons. apply IH. intros key Hkey.
    destruct (decide (k = key)) as [->|Hne].
    + rewrite !lookup_insert_eq. reflexivity.
    + rewrite !lookup_insert_ne by exact Hne. apply Hagree.
      cbn. apply not_elem_of_cons. split; [congruence|exact Hkey].
Qed.

Lemma store_all_twice entries (handles : handle_map) :
  store_all entries (store_all entries handles) = store_all entries handles.
Proof.
  apply store_all_agree. intros key Hkey. apply store_all_other, Hkey.
Qed.

(** X9. [update_shape] is idempotent: as long as the element renders the
    same handles, a second call leaves the shape as the first call left
    it and ends as the first call ended, with the same mapping or the
    same exception. *)
Theorem oe_update_shape_twice self :
  oe_update_shape (oe_update_shape self).1 = oe_update_shape self.
Proof.
  unfold oe_update_shape. rewrite update_handles_entries.
  cbn [fst snd set_oe_handles oe_handles oe_e render_color].
  unfold render_color. cbn [oe_e].
  rewrite update_handles_entries.
  cbn [fst snd set_oe_handles oe_handles oe_e]. rewrite store_all_twice.
  reflexivity.
Qed.

Lemma all_known_reached (items : odict handle_value) :
  Forall (fun kv => known_tag kv.2 = true) items → reached items = items.
Proof.
  induction 1 as [|[k v] rest Hk _ IH]; [reflexivity|].
  cbn in *. rewrite Hk, IH. reflexivity.
Qed.

Lemma od_lookup_is_Some {A} (d : odict A) key :
  is_Some (od_lookup d key) ↔ key ∈ map fst d.
Proof.
  induction d as [|[k a] d' IH]; cbn.
  - split; [intros [? [=]]|intros H; inversion H].
  - rewrite elem_of_cons. destruct (String.eqb_spec k key) as [->|Hne].
    + split; eauto.
    + rewrite IH. split; [auto|]. intros [->|H]; [congruence|exact H].
Qed.

Lemma elem_of_keys {A} (d : odict A) key :
  key ∈ map fst d → ∃ a, (key, a) ∈ d.
Proof.
  induction d as [|[k a] d' IH]; cbn; [intros H; inversion H|].
  rewrite elem_of_cons. intros [->|H].
  - exists a. apply list_elem_of_here.
  - destruct (IH H) as [a' Ha']. exists a'. apply list_elem_of_further, Ha'.
Qed.

(** X10. The first [update_shape] of a newly created optical element whose
    handles all carry a polygon or polyline tag and a polygon of at least
    one coordinate pair returns a mapping with exactly one entry per
    rendered handle. *)
Theorem new_shape_gets_one_entry_per_handle e :
  NoDup (map fst (e_handles e)) →
  Forall (fun kv => coordinate_rows (fst (fst (snd kv)))) (e_handles e) →
  Forall (fun kv => known_tag kv.2 = true) (e_handles e) →
  ∃ res,
    oe_update_shape (create_optical_element e)
    = (set_oe_handles res (create_optical_element e), Ok res)
    ∧ ∀ key, is_Some (res !! key) ↔ is_Some (od_lookup (e_handles e) key).
Proof.
  intros Hnd Hrows Hknown.
  assert (Hnew : oe_e (create_optical_element e) = e
                 ∧ oe_handles (create_optical_element e) = ∅)
    by (unfold create_optical_element; destruct (e_class e); auto).
  destruct Hnew as [He Hh].
  destruct (update_handles_spec (e_render_color e) (e_handles e) ∅ Hnd Hrows)
    as (res & Hres & Hin & Hout).
  rewrite (all_known_reached _ Hknown) in Hin, Hout.
  exists res. split.
  - unfold oe_update_shape, render_color. rewrite He, Hh, Hres. reflexivity.
  - intros key. rewrite od_lookup_is_Some. split.
    + intros Hsome. destruct (decide (key ∈ map fst (e_handles e)));
        [assumption|].
      rewrite (Hout key) in Hsome by assumption.
      rewrite lookup_empty in Hsome. destruct Hsome as [? [=]].
    + intros Hkey. destruct (elem_of_keys _ _ Hkey) as [value Hvalue].
      destruct (Hin key value Hvalue) as (entry & _ & ->). eauto.
Qed.

Lemma new_shape_gets_one_entry_per_handle_witness :
  ∃ res,
    oe_update_shape (create_optical_element lens_element)
    = (set_oe_handles res (create_optical_element lens_element), Ok res)
    ∧ ∀ key, is_Some (res !! key)
             ↔ is_Some (od_lookup (e_handles lens_element) key).
Proof.
  apply (new_shape_gets_one_entry_per_handle lens_element).
  - apply (bool_decide_unpack _). vm_compute. reflexivity.
  - cbn. repeat constructor; discriminate.
  - repeat constructor.
Defined.

(** *** Press, drag and release on an optical element *)

Lemma lift_run {S A} (r : result A) (s : S) : lift r s = (s, r).
Proof. reflexivity. Qed.

Lemma py_getitem_Some {A} (d : gmap string A) key a :
  d !! key = Some a → py_getitem d key = Ok a.
Proof. intros H. unfold py_getitem. rewrite H. reflexivity. Qed.

Lemma py_getitem_None {A} (d : gmap string A) key :
  d !! key = None → py_getitem d key = Raise KeyError.
Proof. intros H. unfold py_getitem. rewrite H. reflexivity. Qed.

Lemma call_returns {X} key kind h arg (x : X) log :
  h_raises h = None →
  call key kind h arg (x, log)
  = ((x, (log ++ [Invoke key kind (h_id h) arg])%list), Ok tt).
Proof.
  intros Hret. unfold call, emit, modify. rewrite bind_run, Hret.
  reflexivity.
Qed.

Lemma call_raises {X} key kind h arg (x : X) log e :
  h_raises h = Some e →
  call key kind h arg (x, log)
  = ((x, (log ++ [Invoke key kind (h_id h) arg])%list), Raise e).
Proof.
  intros Hret. unfold call, emit, modify. rewrite bind_run, Hret.
  reflexivity.
Qed.

Lemma call_each_returns {X} kind table : ∀ (x : X) log,
  all_return kind table →
  for_each (fun '(key, action_obj) =>
              h ← lift (py_getitem (ao_actions action_obj) kind);
              call key kind h NoArg) table (x, log)
  = ((x, (log ++ calls_of kind table)%list), Ok tt).
Proof.
  induction table as [|[key obj] rest IH]; intros x log Hall.
  - cbn. rewrite app_nil_r. reflexivity.
  - pose proof (Forall_inv Hall) as (h & Hh & Hret). cbn in Hh.
    cbn [for_each calls_of flat_map]. rewrite !bind_run, lift_run.
    rewrite (py_getitem_Some _ _ _ Hh).
    rewrite (call_returns key kind h NoArg x log Hret).
    rewrite (IH x _ (Forall_inv_tail Hall)).
    rewrite <- app_assoc, Hh. reflexivity.
Qed.

Lemma on_select_shape_ok self log handle event table :
  handle_actions self !! handle = Some table →
  all_return "press" table →
  on_select_shape handle event (self, log)
  = ((set_select_pt (Some ((ev_x event, ev_y event),
                           (ev_xdata event, ev_ydata event))) self,
      (log ++ calls_of "press" table)%list), Ok tt).
Proof.
  intros Htable Hall. unfold on_select_shape, get. rewrite bind_run.
  cbv beta iota. rewrite bind_run, lift_run, (py_getitem_Some _ _ _ Htable).
  rewrite bind_run, (call_each_returns "press" table self log Hall).
  reflexivity.
Qed.

Lemma on_release_shape_ok self log handle event table :
  handle_actions self !! handle = Some table →
  all_return "release" table →
  on_release_shape handle event (self, log)
  = ((set_move_direction None (set_select_pt None self),
      (log ++ Print (ev_x event) (ev_y event)
           :: calls_of "release" table)%list), Ok tt).
Proof.
  intros Htable Hall. unfold on_release_shape, emit, get.
  rewrite bind_run. unfold modify at 1. cbv beta iota.
  rewrite bind_run. cbv beta iota.
  rewrite bind_run, lift_run, (py_getitem_Some _ _ _ Htable).
  rewrite bind_run, (call_each_returns "release" table self _ Hall).
  rewrite <- app_assoc. reflexivity.
Qed.

(** X11. A press on a handle whose action objects all have a press handler
    that returns calls those handlers in the order of the handle's table,
    records the pixel and data position of the event as the press point,
    and changes nothing else of the shape. *)
Theorem press_records_the_point self log handle event table :
  handle_actions self !! handle = Some table →
  all_return "press" table →
  on_select_shape handle event (self, log)
  = ((set_select_pt (Some ((ev_x event, ev_y event),
                           (ev_xdata event, ev_ydata event))) self,
      (log ++ calls_of "press" table)%list), Ok tt).
Proof. apply on_select_shape_ok. Qed.

Lemma press_records_the_point_witness :
  on_select_shape "shape" pointer (axis_lens, [])
  = ((set_select_pt (Some ((ev_x pointer, ev_y pointer),
                           (ev_xdata pointer, ev_ydata pointer))) axis_lens,
      ([] ++ calls_of "press" axis_table)%list), Ok tt).
Proof.
  apply (press_records_the_point axis_lens [] "shape" pointer axis_table).
  - reflexivity.
  - repeat constructor; eexists; (split; reflexivity).
Defined.

(** X12. A release on a handle whose action objects all have a release
    handler that returns prints the position, calls those handlers in the
    order of the table, and leaves the press point and the axis lock at
    [None], whatever they were, also when the attributes did not exist. *)
Theorem release_resets_the_gesture self log handle event table :
  handle_actions self !! handle = Some table →
  all_return "release" table →
  on_release_shape handle event (self, log)
  = ((set_move_direction None (set_select_pt None self),
      (log ++ Print (ev_x event) (ev_y event)
           :: calls_of "release" table)%list), Ok tt).
Proof. apply on_release_shape_ok. Qed.

Lemma release_resets_the_gesture_witness :
  on_release_shape "shape" pointer (create_optical_element mirror_element, [])
  = ((set_move_direction None
        (set_select_pt None (create_optical_element mirror_element)),
      ([] ++ Print (ev_x pointer) (ev_y pointer)
          :: calls_of "release" [("x", action_obj slide)])%list), Ok tt).
Proof.
  apply (release_resets_the_gesture (create_optical_element mirror_element)
           [] "shape" pointer [("x", action_obj slide)]).
  - reflexivity.
  - repeat constructor; eexists; (split; reflexivity).
Defined.

Ltac run_edit :=
  unfold on_edit_shape, call, emit, on_shape, modify, get,
    lift, py_getitem, getattr, od_getitem, mbind, M_bind, mret, M_ret;
  cbv beta iota zeta.

Ltac split_edit :=
  repeat (cbv beta iota zeta;
          match goal with
          | |- context [match ?x with _ => _ end] =>
              lazymatch x with
              | context [match _ with _ => _ end] => fail
              | _ => destruct x eqn:?
              end
          | |- context [if ?x then _ else _] =>
              lazymatch x with
              | context [match _ with _ => _ end] => fail
              | _ => destruct x eqn:?
              end
          end).

(** X13. The drag that follows a press on a freshly created mirror, or on
    any other shape that is not made from an [Element], raises and does
    nothing else. It raises [AttributeError] when the pointer was inside
    the axes at the press and is inside them at the drag: only
    [LensElement] creates the [move_direction] attribute,
    [create_optical_element] makes a lens of an [Element] only, and a
    press does not set it. It raises [TypeError] otherwise, from the
    subtraction of the data positions, which comes first. *)
Theorem first_drag_of_a_mirror_raises e log handle press move table :
  e_class e ≠ IsElement →
  e_handle_actions e !! handle = Some table →
  all_return "press" table →
  on_edit_shape handle move
    (on_select_shape handle press (create_optical_element e, log)).1
  = ((on_select_shape handle press (create_optical_element e, log)).1,
     Raise (if in_axes press && in_axes move
            then AttributeError else TypeError)).
Proof.
  intros Hclass Htable Hall.
  assert (Hha : handle_actions (create_optical_element e) !! handle
                = Some table)
    by (unfold create_optical_element; destruct (e_class e); exact Htable).
  assert (Hmd : move_direction (create_optical_element e) = NoAttr)
    by (unfold create_optical_element; destruct (e_class e);
        [congruence|reflexivity|reflexivity]).
  rewrite (on_select_shape_ok _ log handle press table Hha Hall).
  cbn [fst]. run_edit.
  cbn [handle_actions select_pt move_direction set_select_pt].
  rewrite Hha. cbv beta iota zeta. unfold in_axes.
  destruct (ev_xdata press), (ev_ydata press), (ev_xdata move),
    (ev_ydata move); cbn [py_sub andb]; cbv beta iota zeta;
    rewrite ?Hmd; reflexivity.
Qed.

Lemma first_drag_of_a_mirror_raises_witness :
  on_edit_shape "shape" pointer
    (on_select_shape "shape" pointer
       (create_optical_element mirror_element, [])).1
  = ((on_select_shape "shape" pointer
        (create_optical_element mirror_element, [])).1,
     Raise (if in_axes pointer && in_axes pointer
            then AttributeError else TypeError)).
Proof.
  apply (first_drag_of_a_mirror_raises mirror_element [] "shape" pointer
           pointer [("x", action_obj slide)]).
  - discriminate.
  - reflexivity.
  - repeat constructor; eexists; (split; reflexivity).
Defined.

(** X14. Without a ['pt'] action object on the handle, a drag with the
    pointer inside the axes, after a press inside the axes, that is
    locked to x or to y calls the drag handler of the action object of
    that axis with the distance, in data coordinates and along that axis,
    from the press point to the pointer; it refreshes the GUI if the
    handler returns, and it leaves the shape as it is. *)
Theorem axis_locked_drag
    self log handle event table pixels from to dir value obj h :
  handle_actions self !! handle = Some table →
  select_pt self = Attr (Some (pixels, (Some from.1, Some from.2))) →
  ev_xdata event = Some to.1 →
  ev_ydata event = Some to.2 →
  move_direction self = Attr (Some dir) →
  dir = "x" ∨ dir = "y" →
  od_lookup (e_handles (oe_e self)) handle = Some value →
  od_lookup table "pt" = None →
  od_lookup table dir = Some obj →
  ao_actions obj !! "drag" = Some h →
  on_edit_shape handle event (self, log)
  = ((self,
      (log ++ Invoke dir "drag" (h_id h)
                     (DeltaArg (axis_delta dir from to))
           :: match h_raises h with
              | Some _ => []
              | None => [RefreshGui]
              end)%list),
     match h_raises h with
     | Some e => Raise e
     | None => Ok tt
     end).
Proof.
  intros Htable Hpress Hx Hy Hdir Haxis Hvalue Hpt Hobj Hh.
  destruct pixels as [x y].
  run_edit. unfold inv_transform_point. rewrite Htable. cbv beta iota zeta.
  rewrite Hpress. cbv beta iota zeta. rewrite Hx, Hy. cbn [py_sub].
  cbv beta iota zeta. rewrite Hdir. cbv beta iota zeta.
  rewrite Hvalue. cbv beta iota zeta.
  rewrite inv_transform_poly_point. cbv beta iota zeta.
  rewrite Hpt, Hdir. cbv beta iota zeta. rewrite Hobj, Hh.
  unfold axis_delta.
  destruct Haxis as [-> | ->]; cbn [String.eqb Ascii.eqb Bool.eqb fst snd];
    cbv beta iota zeta;
    (destruct (h_raises h); cbv beta iota zeta;
     [reflexivity|rewrite <- app_assoc; reflexivity]).
Qed.

Lemma axis_locked_drag_witness :
  on_edit_shape "shape" pointer
    (set_move_direction (Some "y")
       (set_select_pt (Some ((100, 80), (Some 2, Some 1))) axis_lens), [])
  = ((set_move_direction (Some "y")
        (set_select_pt (Some ((100, 80), (Some 2, Some 1))) axis_lens),
      ([] ++ Invoke "y" "drag" (h_id resize)
                    (DeltaArg (axis_delta "y" (2, 1) (3, 1)))
          :: match h_raises resize with
             | Some _ => []
             | None => [RefreshGui]
             end)%list),
     match h_raises resize with
     | Some e => Raise e
     | None => Ok tt
     end).
Proof.
  apply (axis_locked_drag _ [] "shape" pointer axis_table (100, 80) (2, 1)
           (3, 1) "y" (unit_square, (identity, Vec3 0 0 2), "polygon")
           (action_obj resize) resize); try reflexivity.
  right. reflexivity.
Defined.

(** What a drag can do to the shape: nothing, or set the lock. *)
Lemma on_edit_shape_shape handle event self log :
  (on_edit_shape handle event (self, log)).1.1 = self
  ∨ ∃ d, (on_edit_shape handle event (self, log)).1.1
         = set_move_direction d self.
Proof.
  run_edit. split_edit; cbn [fst]; eauto.
Qed.

(** X15. The first drag after a press on a lens, with the press and the
    pointer inside the axes and while the lock is still [None], sets the
    lock from the pixel distances between the pointer and the press
    point: x if the horizontal one is larger, y if the vertical one is
    larger, [None] again if they are equal (or not comparable); the lock
    is set whatever happens in the rest of the drag. *)
Theorem first_drag_sets_the_lock
    self log handle event table press_pt from_x from_y :
  handle_actions self !! handle = Some table →
  select_pt self = Attr (Some press_pt) →
  press_pt.2 = (Some from_x, Some from_y) →
  in_axes event = true →
  move_direction self = Attr None →
  move_direction (on_edit_shape handle event (self, log)).1.1
  = Attr (first_lock press_pt event).
Proof.
  intros Htable Hpress Hfrom Hin Hdir.
  destruct press_pt as [[x y] [xdata ydata]]. cbn [snd] in Hfrom.
  injection Hfrom as -> ->. unfold in_axes in Hin.
  destruct (ev_xdata event) as [to_x|] eqn:Hx; [|discriminate Hin].
  destruct (ev_ydata event) as [to_y|] eqn:Hy; [|discriminate Hin].
  unfold first_lock. cbn [fst snd].
  run_edit. rewrite Htable. cbv beta iota zeta.
  rewrite Hpress. cbv beta iota zeta. rewrite Hx, Hy. cbn [py_sub].
  cbv beta iota zeta. rewrite Hdir. cbv beta iota zeta.
  destruct (abs (y - ev_y event) <? abs (x - ev_x event));
    [|destruct (abs (x - ev_x event) <? abs (y - ev_y event))];
    split_edit; reflexivity.
Qed.

Lemma first_drag_sets_the_lock_witness :
  move_direction
    (on_edit_shape "shape" pointer
       (set_select_pt (Some ((100, 80), (Some 2, Some 1))) axis_lens, [])).1.1
  = Attr (first_lock ((100, 80), (Some 2, Some 1)) pointer).
Proof.
  apply (first_drag_sets_the_lock _ [] "shape" pointer axis_table
           ((100, 80), (Some 2, Some 1)) 2 1); reflexivity.
Defined.

Lemma drags_shape handle events : ∀ self log,
  (drags handle events (self, log)).1 = self
  ∨ ∃ d, (drags handle events (self, log)).1 = set_move_direction d self.
Proof.
  induction events as [|event rest IH]; intros self log; [left; reflexivity|].
  change (drags handle (event :: rest) (self, log))
    with (drags handle rest (on_edit_shape handle event (self, log)).1).
  destruct (on_edit_shape handle event (self, log)) as [[self1 log1] r] eqn:H.
  pose proof (on_edit_shape_shape handle event self log) as Hstep.
  rewrite H in Hstep. cbn [fst] in *.
  destruct (IH self1 log1) as [Hr|[d Hr]]; rewrite Hr;
    destruct Hstep as [->|[d' ->]]; eauto.
Qed.

(** X16. A whole gesture on a handle of a lens that is at rest (press
    point and lock both [None]), whose action objects all have press and
    release handlers that return, leaves the shape exactly as it was:
    whatever the drags in between do or raise, the release returns and
    the press point and the lock are [None] again. *)
Theorem gesture_leaves_the_shape
    self log handle press moves release table :
  select_pt self = Attr None →
  move_direction self = Attr None →
  handle_actions self !! handle = Some table →
  all_return "press" table →
  all_return "release" table →
  ∃ log', gesture handle press moves release (self, log)
          = ((self, log'), Ok tt).
Proof.
  intros Hsp Hmd Htable Hpress Hrelease. unfold gesture.
  rewrite (on_select_shape_ok self log handle press table Htable Hpress).
  cbn [fst].
  set (pressed := set_select_pt _ self).
  destruct (drags handle moves (pressed, (log ++ calls_of "press" table)%list))
    as [dragged log1] eqn:Hdrags.
  pose proof (drags_shape handle moves pressed
                (log ++ calls_of "press" table)%list) as Hshape.
  rewrite Hdrags in Hshape. cbn [fst] in Hshape.
  assert (Hha : handle_actions dragged !! handle = Some table)
    by (destruct Hshape as [->|[d ->]]; exact Htable).
  rewrite (on_release_shape_ok dragged log1 handle release table Hha
             Hrelease).
  eexists. f_equal. f_equal.
  destruct self as [cls el hs ha sp md]. cbn in Hsp, Hmd. subst sp md.
  destruct Hshape as [->|[d ->]]; reflexivity.
Qed.

Lemma gesture_leaves_the_shape_witness :
  ∃ log', gesture "shape" pointer upward_motions pointer (axis_lens, [])
          = ((axis_lens, log'), Ok tt).
Proof.
  apply (gesture_leaves_the_shape axis_lens [] "shape" pointer
           upward_motions pointer axis_table); try reflexivity;
    repeat constructor; eexists; (split; reflexivity).
Defined.

(** *** Selecting a ray *)

(** X17. A press on a handle other than ['shape'] of a ray bundle that
    was created with a ray table callback and has been rendered puts the
    segments of the ray with that key into the ray table and refreshes the
    GUI, when the rays include the key; the bundle itself is not
    changed. *)
Theorem select_ray_shows_its_segments self log handle event rays r :
  handle ≠ "shape" →
  ray_table_callback self = true →
  rayset self = Attr rays →
  od_lookup rays handle = Some r →
  on_select_ray handle event (self, log)
  = ((self, (log ++ [RayTableRoot (ray r); RefreshGui])%list), Ok tt).
Proof.
  intros Hne Hcb Hrays Hr.
  unfold on_select_ray. apply String.eqb_neq in Hne. rewrite Hne.
  cbn [negb]. unfold get, lift, getattr, od_getitem, emit, modify,
    mbind, M_bind, mret, M_ret.
  cbv beta iota zeta. rewrite Hcb. cbv beta iota zeta.
  rewrite Hrays. cbv beta iota zeta. rewrite Hr. cbv beta iota zeta.
  rewrite <- app_assoc. reflexivity.
Qed.

Lemma select_ray_shows_its_segments_witness :
  on_select_ray "+Y" pointer (traced_bundle, [])
  = ((traced_bundle,
      ([] ++ [RayTableRoot (ray (full_ray 1)); RefreshGui])%list), Ok tt).
Proof.
  apply (select_ray_shows_its_segments traced_bundle [] "+Y" pointer
           full_rayset (full_ray 1)); [discriminate|reflexivity..].
Defined.

(** *** Labels *)

(** X18. [get_label] always returns: the label of the element if it has
    one, and otherwise the default of the shape's class (['lens'],
    ['mirror'] or ['element']), which it stores on the element. The shape
    it leaves has that label, so a second call returns the same label and
    changes nothing. *)
Theorem get_label_settles self :
  ∃ self' l,
    oe_get_label self = (self', Ok l)
    ∧ e_label (oe_e self') = Some l
    ∧ oe_get_label self' = (self', Ok l)
    ∧ match e_label (oe_e self) with
      | Some l0 => l = l0 ∧ self' = self
      | None =>
          l = match oe_class self with
              | OpticalElementClass => "element"
              | LensElementClass => "lens"
              | MirrorElementClass => "mirror"
              end
          ∧ self' = set_oe_e (set_e_label l (oe_e self)) self
      end.
Proof.
  unfold oe_get_label. destruct (e_label (oe_e self)) as [l0|] eqn:Hl.
  - exists self, l0. rewrite Hl. auto.
  - eexists _, _. split; [reflexivity|]. cbn. auto.
Qed.

End LayoutMore.

(** ** More of the figure: dispatch, hovering, clicks *)

Module InteractiveLayoutMore.

Import Np Layout InteractiveLayout Cases LayoutFacts InteractiveLayoutFacts.
Import LayoutMore.
Local Open Scope float_scope.

(** *** What a dispatch can change *)

Lemma same_view_refl fig : same_view fig fig.
Proof. repeat split. Qed.


(** An action changes the shape it runs on and the record of effects. *)
Lemma shape_action_frame sid handle event event_key fig :
  same_view fig (shape_action sid handle event event_key fig).1
  ∧ ∀ sid', sid' ≠ sid →
      shapes (shape_action sid handle event event_key fig).1 sid'
      = shapes fig sid'.
Proof.
  unfold shape_action, get. rewrite bind_run.
  destruct (shapes fig sid) as [oe|rb].
  - rewrite bind_run, lift_run.
    destruct (py_getitem edit_shape_actions event_key) as [action|e];
      [|split; [apply same_view_refl|reflexivity]].
    unfold run_oe. destruct (action handle event (oe, effects fig))
      as [[oe' log] r].
    split; [repeat split|]. intros sid' Hne. cbn.
    apply fn_lookup_insert_ne. congruence.
  - rewrite bind_run, lift_run.
    destruct (py_getitem edit_ray_bundle_actions event_key) as [action|e];
      [|split; [apply same_view_refl|reflexivity]].
    unfold run_rb. destruct (action handle event (rb, effects fig))
      as [[rb' log] r].
    split; [repeat split|]. intros sid' Hne. cbn.
    apply fn_lookup_insert_ne. congruence.
Qed.

Lemma except_KeyError_pass_state {S} (body : M S unit) (s : S) :
  (except_KeyError_pass body s).1 = (body s).1
  ∧ (except_KeyError_pass body s).2 ≠ Raise KeyError
  ∧ ((body s).2 ≠ Raise KeyError →
     (except_KeyError_pass body s).2 = (body s).2).
Proof.
  unfold except_KeyError_pass.
  destruct (body s) as [s1 [[]|e]]; [repeat split; auto; discriminate|].
  destruct e; cbn; repeat split; auto; try discriminate; congruence.
Qed.

Lemma do_action_frame event target event_key fig :
  same_view fig (do_action event target event_key fig).1
  ∧ (do_action event target event_key fig).2 ≠ Raise KeyError
  ∧ (∀ sid handle sid',
       target ≫= art_shape = Some (sid, handle) → sid' ≠ sid →
       shapes (do_action event target event_key fig).1 sid'
       = shapes fig sid')
  ∧ (target ≫= art_shape = None →
     (do_action event target event_key fig).1 = fig).
Proof.
  unfold do_action. destruct target as [artist|]; cbn [mbind option_bind].
  2:{ split; [apply same_view_refl|]. repeat split; discriminate. }
  rewrite bind_run, lift_run. unfold artist_shape.
  destruct (art_shape artist) as [[sid handle]|].
  2:{ split; [apply same_view_refl|]. repeat split; discriminate. }
  destruct (except_KeyError_pass_state
              (shape_action sid handle event event_key) fig)
    as (Hst & Hne & _).
  destruct (shape_action_frame sid handle event event_key fig)
    as [Hview Hshapes].
  rewrite Hst. repeat split; try apply Hview; try exact Hne.
  - intros sid0 handle0 sid' [= <- <-]. apply Hshapes.
  - discriminate.
Qed.


(** *** Press, motion and release *)


(** X21. A release whose action returns, or that has no drag target, or
    whose target's shape has no release action, clears the drag target and
    switches [do_scale_bounds] on. A release whose action raises leaves
    both as they were: the figure stays in the drag. *)
Theorem release_ends_the_drag_unless_it_raises event fig :
  match (on_release event fig).2 with
  | Ok _ =>
      selected_artist (on_release event fig).1 = None
      ∧ do_scale_bounds (on_release event fig).1 = true
  | Raise _ =>
      selected_artist (on_release event fig).1 = selected_artist fig
      ∧ do_scale_bounds (on_release event fig).1 = do_scale_bounds fig
  end
  ∧ hilited_artist (on_release event fig).1 = hilited_artist fig
  ∧ ax_children (on_release event fig).1 = ax_children fig.
Proof.
  unfold on_release, modify, get. rewrite !bind_run. cbv beta iota.
  destruct (do_action_frame event (selected_artist fig) "release" fig)
    as ((Hd & Hh & Hs & Hc) & _).
  destruct (do_action event (selected_artist fig) "release" fig)
    as [fig1 [[]|e]]; cbn in *; repeat split; assumption.
Qed.





(** X23. A motion with no drag target returns, makes the topmost artist
    under the pointer the hover target, and asks the renderer for exactly
    this: nothing if the hover target is the same object as before;
    otherwise to unhighlight the old target and redraw, if there was one,
    then to highlight the new target and redraw, if there is one. It
    changes neither the drag target, nor [do_scale_bounds], nor the
    children. *)
Theorem motion_updates_the_hover_target event fig :
  selected_artist fig = None →
  ∃ fig',
    on_motion event fig = (fig', Ok tt)
    ∧ effects fig'
      = (effects fig
         ++ hover_effects (hilited_artist fig) (hit_target event fig))%list
    ∧ hilited_artist fig'
      = (if same_id (hit_target event fig) (hilited_artist fig)
         then hilited_artist fig else hit_target event fig)
    ∧ selected_artist fig' = None
    ∧ do_scale_bounds fig' = do_scale_bounds fig
    ∧ ax_children fig' = ax_children fig.
Proof.
  intros Hsel.
  destruct (find_artists_at_location_result event fig)
    as (fig1 & Hfind & (Hd & Hh & Hs & Hc & He)).
  pose proof (sorted_head (candidates event fig)) as Hhead.
  unfold on_motion, get. rewrite bind_run, Hsel.
  rewrite bind_run, Hfind, bind_run.
  unfold hover_effects, hit_target. rewrite Hh.
  destruct (same_id _ (hilited_artist fig)) eqn:Hid; cbn [negb].
  - exists fig1. rewrite app_nil_r, Hs, Hsel. auto 10.
  - destruct (head (sorted_by_zorder_reverse (candidates event fig)))
      as [target|].
    + destruct (topmost_first_has_shape event fig target Hhead)
        as [[sid handle] Hshape].
      rewrite bind_run.
      assert (HA : ∃ figA,
                 (match hilited_artist fig with
                  | Some a => modify (add_effect (Unhighlight (art_id a)));;
                              modify (add_effect CanvasDraw)
                  | None => mret tt
                  end) fig1 = (figA, Ok tt)
                 ∧ effects figA
                   = (effects fig
                      ++ match hilited_artist fig with
                         | Some a => [Unhighlight (art_id a); CanvasDraw]
                         | None => []
                         end)%list
                 ∧ selected_artist figA = None
                 ∧ do_scale_bounds figA = do_scale_bounds fig
                 ∧ ax_children figA = ax_children fig).
      { destruct (hilited_artist fig); eexists;
          (split; [reflexivity|]); cbn; rewrite He, Hs, Hd, Hc, Hsel,
            ?app_nil_r, <- ?app_assoc; auto. }
      destruct HA as (figA & -> & HeA & HsA & HdA & HcA).
      rewrite !bind_run. unfold modify, lift, artist_shape.
      rewrite Hshape, !bind_run.
      match goal with
      | |- context [get_label sid ?f] =>
          destruct (get_label_ok sid f)
            as (figC & l & Hl & (HdC & HhC & HsC & HcC & HeC)); rewrite Hl
      end.
      exists figC. split; [reflexivity|].
      rewrite HeC, HhC, HsC, HdC, HcC. cbn.
      rewrite HeA, HsA, HdA, HcA, <- !app_assoc. auto 10.
    + rewrite bind_run.
      destruct (hilited_artist fig) as [old|]; eexists;
        (split; [reflexivity|]); cbn;
        rewrite He, Hs, Hd, Hc, Hsel, ?app_nil_r, <- ?app_assoc; auto 10.
Qed.

Lemma motion_updates_the_hover_target_witness :
  ∃ fig',
    on_motion pointer stacked_figure = (fig', Ok tt)
    ∧ effects fig'
      = (effects stacked_figure
         ++ hover_effects (hilited_artist stacked_figure)
                          (hit_target pointer stacked_figure))%list
    ∧ hilited_artist fig'
      = (if same_id (hit_target pointer stacked_figure)
                    (hilited_artist stacked_figure)
         then hilited_artist stacked_figure
         else hit_target pointer stacked_figure)
    ∧ selected_artist fig' = None
    ∧ do_scale_bounds fig' = do_scale_bounds stacked_figure
    ∧ ax_children fig' = ax_children stacked_figure.
Proof.
  apply (motion_updates_the_hover_target pointer stacked_figure).
  reflexivity.
Defined.

(** *** The order of the artists under the pointer *)

Lemma insert_by_zorder_perm a l : insert_by_zorder a l ≡ₚ a :: l.
Proof.
  induction l as [|b l' IH]; cbn; [reflexivity|].
  destruct (Qlt_le_dec _ _); [|reflexivity].
  rewrite IH. apply Permutation_swap.
Qed.

Lemma sorted_by_zorder_reverse_perm l : sorted_by_zorder_reverse l ≡ₚ l.
Proof.
  induction l as [|a l' IH]; cbn; [reflexivity|].
  fold (sorted_by_zorder_reverse l').
  rewrite insert_by_zorder_perm, IH. reflexivity.
Qed.

Lemma by_zorder_descending_cons a l :
  Forall (fun b => (art_zorder b <= art_zorder a)%Q) l →
  by_zorder_descending l →
  by_zorder_descending (a :: l).
Proof.
  intros Ha Hl [|b before] x after Heq; cbn in Heq.
  - injection Heq as -> ->. exact Ha.
  - injection Heq as -> ->. apply (Hl before x after). reflexivity.
Qed.

Lemma by_zorder_descending_tail a l :
  by_zorder_descending (a :: l) → by_zorder_descending l.
Proof. intros H before x after ->. apply (H (a :: before) x after). reflexivity. Qed.

Lemma insert_by_zorder_descending a l :
  by_zorder_descending l → by_zorder_descending (insert_by_zorder a l).
Proof.
  induction l as [|b l' IH]; intros Hl; cbn.
  - apply by_zorder_descending_cons; [constructor|exact Hl].
  - pose proof (Hl [] b l' eq_refl) as Hb.
    destruct (Qlt_le_dec _ _) as [Hlt|Hle].
    + apply by_zorder_descending_cons.
      * rewrite insert_by_zorder_perm. constructor; [|exact Hb].
        apply Qlt_le_weak, Hlt.
      * apply IH. eapply by_zorder_descending_tail, Hl.
    + apply by_zorder_descending_cons; [|exact Hl].
      constructor; [exact Hle|].
      revert Hb. apply List.Forall_impl. intros x Hx.
      eapply Qle_trans; [exact Hx|exact Hle].
Qed.

Lemma sorted_by_zorder_reverse_descending l :
  by_zorder_descending (sorted_by_zorder_reverse l).
Proof.
  induction l as [|a l' IH]; cbn.
  - intros [|? ?] ? ? Heq; discriminate Heq.
  - apply insert_by_zorder_descending, IH.
Qed.

Lemma at_zorder_cons q a l :
  at_zorder q (a :: l)
  = if Qeq_bool (art_zorder a) q then a :: at_zorder q l else at_zorder q l.
Proof.
  unfold at_zorder. rewrite filter_cons.
  destruct (Qeq_bool (art_zorder a) q); reflexivity.
Qed.

Lemma at_zorder_insert q a l :
  at_zorder q (insert_by_zorder a l) = at_zorder q (a :: l).
Proof.
  induction l as [|b l' IH]; cbn [insert_by_zorder]; [reflexivity|].
  destruct (Qlt_le_dec _ _) as [Hlt|Hle]; [|reflexivity].
  rewrite (at_zorder_cons q b), IH, !at_zorder_cons.
  destruct (Qeq_bool (art_zorder a) q) eqn:Ha;
    destruct (Qeq_bool (art_zorder b) q) eqn:Hb; try reflexivity.
  apply Qeq_bool_iff in Ha, Hb. exfalso.
  rewrite Ha, Hb in Hlt. exact (Qlt_irrefl _ Hlt).
Qed.

Lemma at_zorder_sorted q l :
  at_zorder q (sorted_by_zorder_reverse l) = at_zorder q l.
Proof.
  induction l as [|a l' IH]; [reflexivity|].
  cbn [sorted_by_zorder_reverse foldr]. fold (sorted_by_zorder_reverse l').
  rewrite at_zorder_insert, !at_zorder_cons, IH. reflexivity.
Qed.

(** X24. [find_artists_at_location] returns, without raising and for every
    figure and pointer position, a rearrangement of the children that
    carry a shape and contain the pointer: no artist comes before one of
    higher z-order, and the artists of any one z-order come in the order
    of the axes' children. *)
Theorem find_artists_sorts_stably event fig :
  ∃ fig' artists,
    find_artists_at_location event fig = (fig', Ok artists)
    ∧ artists ≡ₚ candidates event fig
    ∧ by_zorder_descending artists
    ∧ ∀ q, at_zorder q artists = at_zorder q (candidates event fig).
Proof.
  destruct (find_artists_at_location_result event fig) as (fig' & H & _).
  exists fig', (sorted_by_zorder_reverse (candidates event fig)).
  split; [exact H|]. split; [apply sorted_by_zorder_reverse_perm|].
  split; [apply sorted_by_zorder_reverse_descending|].
  intros q. apply at_zorder_sorted.
Qed.

(** *** Whole clicks *)

(** X25. A press followed by a release while nothing is hovered and
    nothing is dragged returns from both, calls no action, and leaves the
    figure as it was except that [do_scale_bounds] is [True]. *)
Theorem idle_click_restores_autoscale press release fig :
  hilited_artist fig = None →
  selected_artist fig = None →
  (on_press press fig).2 = Ok tt
  ∧ on_release release (on_press press fig).1
    = (set_do_scale_bounds true fig, Ok tt).
Proof.
  intros Hh Hs. unfold on_press, on_release, modify, get.
  rewrite !bind_run. cbn. rewrite Hh. cbn. split; [reflexivity|].
  destruct fig; cbn in *; subst; reflexivity.
Qed.

Lemma idle_click_restores_autoscale_witness :
  (on_press pointer idle_figure).2 = Ok tt
  ∧ on_release pointer (on_press pointer idle_figure).1
    = (set_do_scale_bounds true idle_figure, Ok tt).
Proof.
  apply (idle_click_restores_autoscale pointer pointer idle_figure);
    reflexivity.
Defined.

(** X26. A release while the drag target is a handle of an optical element
    that has no entry in the element's [handle_actions] returns: the
    [KeyError] is swallowed after the position was printed, the figure
    ends the drag and turns [do_scale_bounds] on, but the element is left
    as it was, so its press point and axis lock are not reset. *)
Theorem release_without_handle_actions event fig artist sid handle oe :
  selected_artist fig = Some artist →
  art_shape artist = Some (sid, handle) →
  shapes fig sid = OE oe →
  handle_actions oe !! handle = None →
  ∃ fig',
    on_release event fig = (fig', Ok tt)
    ∧ selected_artist fig' = None
    ∧ do_scale_bounds fig' = true
    ∧ hilited_artist fig' = hilited_artist fig
    ∧ shapes fig' sid = OE oe
    ∧ effects fig'
      = (effects fig ++ [Print (ev_x event) (ev_y event)])%list.
Proof.
  intros Hsel Hshape Hsid Hnone.
  unfold on_release, get. rewrite bind_run, Hsel.
  unfold do_action, artist_shape. rewrite Hshape, !bind_run, lift_run.
  unfold except_KeyError_pass, shape_action, get.
  rewrite !bind_run, Hsid, bind_run, lift_run.
  rewrite (py_getitem_Some edit_shape_actions "release" on_release_shape
             eq_refl).
  unfold run_oe, on_release_shape, emit, get.
  rewrite bind_run. unfold modify at 1. cbv beta iota.
  rewrite bind_run. cbv beta iota.
  rewrite bind_run, lift_run, (py_getitem_None _ _ Hnone).
  eexists. split; [reflexivity|]. cbn.
  rewrite fn_lookup_insert. auto 10.
Qed.

Lemma release_without_handle_actions_witness :
  ∃ fig',
    on_release pointer edge_drag_figure = (fig', Ok tt)
    ∧ selected_artist fig' = None
    ∧ do_scale_bounds fig' = true
    ∧ hilited_artist fig' = hilited_artist edge_drag_figure
    ∧ shapes fig' 0%nat = OE dragged_lens
    ∧ effects fig'
      = (effects edge_drag_figure
         ++ [Print (ev_x pointer) (ev_y pointer)])%list.
Proof.
  apply (release_without_handle_actions pointer edge_drag_figure edge_artist
           0%nat "edge" dragged_lens); reflexivity.
Defined.

End InteractiveLayoutMore.
